(** * T2C backend: station pairing sessions and the points ledger

    A shallow embedding of the request handlers of package [api]
    (session.go, the transaction, redemption and registration handlers,
    login and the QR login of auth.go, the bearer-token middleware of
    router.go) and of [database.InitDB], with the properties of the pairing
    state machine and of the ledger proved or refuted on it.

    Conventions of the embedding.
    - The SQLite tables are finite maps keyed by their unique column
      ([users] by [id], [station_sessions] by [session_token]) or
      append-only lists ([transactions], [redemptions]).  A session row that
      a handler has selected by its token and then updates through its
      primary key [id] is updated under its token.  Columns that no handler
      reads back ([password], [created_at], [updated_at], [timestamp]) are
      left out.
    - A handler is a function from its typed request and the database to
      the new database and the HTTP reply; calls are served one after the
      other.  The clock ([time.Now], in seconds), the fresh UUID, the JWT
      verifier and the failures of the storage layer are explicit arguments;
      the identity of a protected route is the user id that the middleware
      has resolved.
    - [float64] is IEEE 754 binary64 as specified by [SpecFloat]; Go's [int]
      is the 64-bit two's complement integer.  The column [total_points],
      the one on which the handlers do arithmetic in SQL, is a SQLite number:
      a 64-bit integer that turns into a REAL when a sum overflows.  The
      other [INTEGER] columns only store what the handlers hand them. *)

From Stdlib Require Import ZArith String QArith Qround Lia Bool.
From Stdlib Require Import Floats.SpecFloat.
From stdpp Require Import base gmap strings list fin_maps.

Local Open Scope Z_scope.

(** ** float64 *)

Module Float64.

Definition prec : Z := 53.
Definition emax : Z := 1024.

Definition float64 : Type := spec_float.

Definition zero : float64 := S754_zero false.

Definition mul : float64 → float64 → float64 := SFmul prec emax.
Definition div : float64 → float64 → float64 := SFdiv prec emax.
Definition add : float64 → float64 → float64 := SFadd prec emax.
Definition sub : float64 → float64 → float64 := SFsub prec emax.
Definition leb : float64 → float64 → bool := SFleb.
Definition ltb : float64 → float64 → bool := SFltb.
Definition eqb : float64 → float64 → bool := SFeqb.

Definition is_nan (f : float64) : bool :=
  match f with S754_nan => true | _ => false end.

(** [float64(n)] for an integer [n]: the nearest binary64, ties to even. *)
Definition of_int (n : Z) : float64 := binary_normalize prec emax n 0 false.

(** The binary64 that [encoding/json] decodes from the decimal literal
    [n * 10^-k]: the correctly rounded quotient of two integers that
    binary64 represents exactly ([|n| < 2^53], [k <= 22]). *)
Definition decimal (n : Z) (k : nat) : float64 :=
  div (of_int n) (of_int (10 ^ Z.of_nat k)).

(** The integer part of a finite float, rounding toward zero. *)
Definition truncate (f : float64) : Z :=
  match f with
  | S754_finite s m e => cond_Zopp s (Z.shiftl (Zpos m) e)
  | _ => 0
  end.

Definition int_min : Z := - 2 ^ 63.
Definition int_max : Z := 2 ^ 63 - 1.

Definition fits_int (f : float64) : bool :=
  match f with
  | S754_zero _ => true
  | S754_finite _ _ _ => (int_min <=? truncate f) && (truncate f <=? int_max)
  | _ => false
  end.

(** [int(f)].  Go truncates toward zero when the result fits; otherwise
    "the conversion succeeds but the result value is
    implementation-dependent".  The value taken here is the one of the amd64
    port ([CVTTSD2SI] yields the integer indefinite, [0x8000000000000000]). *)
Definition to_int (f : float64) : Z :=
  if fits_int f then truncate f else int_min.

(** The rational number a finite float stands for. *)
Definition to_Q (f : float64) : Q :=
  match f with
  | S754_finite s m e =>
      match e with
      | Zneg k => Qmake (cond_Zopp s (Zpos m)) (2 ^ k)%positive
      | _ => inject_Z (cond_Zopp s (Zpos m * 2 ^ e))
      end
  | _ => 0%Q
  end.

End Float64.

Abbreviation float64 := Float64.float64.

(** ** SQLite numbers

    What SQLite keeps in a column declared INTEGER under the statements
    [col = col + ?] and [col = col - ?] with an integer parameter: a 64-bit
    integer as long as the result fits; when the integer operation overflows,
    the result is computed in floating point and the row holds a REAL, unless
    that REAL is again an integer strictly inside the 64-bit range. *)

Module Sqlite.

Inductive numeric : Type :=
| Null
| Integer (i : Z)
| Real (r : float64).

(** The 64-bit two's complement integer with the bits of [i]: the value that
    an [Integer] stands for. *)
Definition int64 (i : Z) : Z :=
  (i - Float64.int_min) mod 2 ^ 64 + Float64.int_min.

Definition in_int64 (i : Z) : bool :=
  (Float64.int_min <=? i) && (i <=? Float64.int_max).

(** [sqlite3RealToI64]: the integer part, saturated at both ends. *)
Definition real_to_int64 (r : float64) : Z :=
  if Float64.leb r (Float64.of_int Float64.int_min) then Float64.int_min
  else if Float64.leb (Float64.of_int Float64.int_max) r then Float64.int_max
  else Float64.to_int r.

(** [sqlite3VdbeIntegerAffinity], which the INTEGER affinity of the column
    applies to a REAL on its way into the row: the value becomes an integer
    "only if the round-trip conversion real->int->real is a no-op, and the
    integer is neither the largest nor the smallest possible integer". *)
Definition integer_affinity (r : float64) : numeric :=
  let ix := real_to_int64 r in
  if Float64.eqb r (Float64.of_int ix)
     && (Float64.int_min <? ix) && (ix <? Float64.int_max)
  then Integer ix else Real r.

(** The result of the floating-point branch of [OP_Add] and [OP_Subtract],
    stored: NaN is NULL. *)
Definition store_real (r : float64) : numeric :=
  if Float64.is_nan r then Null else integer_affinity r.

(** [col + ?] *)
Definition add (v : numeric) (p : Z) : numeric :=
  match v with
  | Null => Null
  | Integer i =>
      if in_int64 (int64 i + p) then Integer (int64 i + p)
      else store_real (Float64.add (Float64.of_int (int64 i)) (Float64.of_int p))
  | Real r => store_real (Float64.add r (Float64.of_int p))
  end.

(** [col - ?] *)
Definition sub (v : numeric) (p : Z) : numeric :=
  match v with
  | Null => Null
  | Integer i =>
      if in_int64 (int64 i - p) then Integer (int64 i - p)
      else store_real (Float64.sub (Float64.of_int (int64 i)) (Float64.of_int p))
  | Real r => store_real (Float64.sub r (Float64.of_int p))
  end.

(** [Scan] of the column into an [int]: an INTEGER converts; a NULL does
    not, and neither does a REAL, which the driver hands over as a [float64]
    whose text (a number of magnitude [2^63] or more, in exponent form) is not
    that of an integer. *)
Definition scan_int (v : numeric) : option Z :=
  match v with
  | Integer i => Some (int64 i)
  | _ => None
  end.

End Sqlite.

(** An integer written where a column value is expected is an INTEGER. *)
Coercion Sqlite.Integer : Z >-> Sqlite.numeric.

(** ** HTTP replies *)

Inductive JSON : Type :=
| JNull
| JInt (n : Z)
| JFloat (f : float64)
| JString (s : string)
| JTime (t : Z).

(** [Response] of router.go together with the status handed to [respondJSON]. *)
Record Response : Type := {
  Status : Z;
  Success : bool;
  Message : string;
  Data : list (string * JSON);
  Error : string
}.

Definition StatusOK : Z := 200.
Definition StatusCreated : Z := 201.
Definition StatusBadRequest : Z := 400.
Definition StatusUnauthorized : Z := 401.
Definition StatusForbidden : Z := 403.
Definition StatusNotFound : Z := 404.
Definition StatusConflict : Z := 409.
Definition StatusInternalServerError : Z := 500.

Definition respond_error (status : Z) (error : string) : Response :=
  {| Status := status; Success := false; Message := ""; Data := []; Error := error |}.

Definition respond_ok (status : Z) (message : string) (data : list (string * JSON)) : Response :=
  {| Status := status; Success := true; Message := message; Data := data; Error := "" |}.

Definition field (k : string) (r : Response) : option JSON :=
  snd <$> List.find (λ kv, String.eqb (fst kv) k) (Data r).

Definition json_of_option_string (o : option string) : JSON :=
  match o with Some s => JString s | None => JNull end.

(** ** Tables *)

Module Users.
Record row : Type := {
  email : string;
  full_name : string;
  total_points : Sqlite.numeric
}.

Definition add_points (p : Z) (u : row) : row :=
  {| email := email u; full_name := full_name u;
     total_points := Sqlite.add (total_points u) p |}.

Definition sub_points (p : Z) (u : row) : row :=
  {| email := email u; full_name := full_name u;
     total_points := Sqlite.sub (total_points u) p |}.
End Users.

Module Transactions.
Record row : Type := {
  id : Z;
  user_id : Z;
  type : string;
  amount : float64;
  item_type : string;
  weight : float64;
  points_earned : Z;
  station_id : Z;
  session_token : option string
}.
End Transactions.

Module Redemptions.
Record row : Type := {
  id : Z;
  user_id : Z;
  points_used : Z;
  amount_cash : float64;
  method : string;
  status : string;
  account_info : string
}.
End Redemptions.

Module StationSessions.
Record row : Type := {
  id : Z;
  station_id : string;
  user_id : option Z;
  status : string;
  auth_token : option string;
  expires_at : Z;
  ended_at : option Z
}.

Definition set_status (st : string) (s : row) : row :=
  {| id := id s; station_id := station_id s; user_id := user_id s; status := st;
     auth_token := auth_token s; expires_at := expires_at s; ended_at := ended_at s |}.

Definition set_ended (st : string) (t : Z) (s : row) : row :=
  {| id := id s; station_id := station_id s; user_id := user_id s; status := st;
     auth_token := auth_token s; expires_at := expires_at s; ended_at := Some t |}.

Definition set_connected (uid : Z) (tok st : string) (s : row) : row :=
  {| id := id s; station_id := station_id s; user_id := Some uid; status := st;
     auth_token := Some tok; expires_at := expires_at s; ended_at := ended_at s |}.
End StationSessions.

(** The database file.  [users_seq] and [station_sessions_seq] are the
    AUTOINCREMENT counters (the largest row id handed out so far). *)
Record DB : Type := {
  users : gmap Z Users.row;
  users_seq : Z;
  transactions : list Transactions.row;
  redemptions : list Redemptions.row;
  station_sessions : gmap string StationSessions.row;
  station_sessions_seq : Z
}.

Definition empty_db : DB :=
  {| users := ∅; users_seq := 0; transactions := []; redemptions := [];
     station_sessions := ∅; station_sessions_seq := 0 |}.

Definition with_users (f : gmap Z Users.row → gmap Z Users.row) (db : DB) : DB :=
  {| users := f (users db); users_seq := users_seq db;
     transactions := transactions db; redemptions := redemptions db;
     station_sessions := station_sessions db;
     station_sessions_seq := station_sessions_seq db |}.

Definition with_station_sessions
    (f : gmap string StationSessions.row → gmap string StationSessions.row) (db : DB) : DB :=
  {| users := users db; users_seq := users_seq db;
     transactions := transactions db; redemptions := redemptions db;
     station_sessions := f (station_sessions db);
     station_sessions_seq := station_sessions_seq db |}.

(** [SELECT total_points FROM users WHERE id = ?] scanned into a
    zero-initialised [int]; the handlers ignore the error of [Scan], so a
    missing row, and a column that is no longer an INTEGER, read as 0. *)
Definition BalanceOf (db : DB) (userID : Z) : Z :=
  match users db !! userID with
  | Some u => default 0 (Sqlite.scan_int (Users.total_points u))
  | None => 0
  end.

(** [UPDATE users SET total_points = total_points + ? WHERE id = ?] *)
Definition update_points (userID p : Z) (db : DB) : DB :=
  with_users (alter (Users.add_points p) userID) db.

(** [UPDATE users SET total_points = total_points - ? WHERE id = ?] *)
Definition deduct_points (userID p : Z) (db : DB) : DB :=
  with_users (alter (Users.sub_points p) userID) db.

(** [INSERT INTO transactions ...]; the result is the database and
    [LastInsertId]. *)
Definition insert_transaction (r : Z → Transactions.row) (db : DB) : DB * Z :=
  let id := Z.of_nat (length (transactions db)) + 1 in
  ({| users := users db; users_seq := users_seq db;
      transactions := transactions db ++ [r id]; redemptions := redemptions db;
      station_sessions := station_sessions db;
      station_sessions_seq := station_sessions_seq db |}, id).

Definition insert_redemption (r : Z → Redemptions.row) (db : DB) : DB * Z :=
  let id := Z.of_nat (length (redemptions db)) + 1 in
  ({| users := users db; users_seq := users_seq db;
      transactions := transactions db; redemptions := redemptions db ++ [r id];
      station_sessions := station_sessions db;
      station_sessions_seq := station_sessions_seq db |}, id).

Definition email_taken (e : string) (db : DB) : Prop :=
  map_Exists (λ _ u, Users.email u = e) (users db).

(** The sum of the signed point deltas of an owner's ledger entries. *)
Definition ledger_sum (l : list Transactions.row) (owner : Z) : Z :=
  foldr (λ e acc, if decide (Transactions.user_id e = owner)
                  then Transactions.points_earned e + acc else acc) 0 l.

(** ** Storage failures and database transactions *)

(** The storage statements of a handler are numbered in source order from 0;
    [flt i] tells whether the i-th one returns an error. *)
Definition Faults : Type := nat → bool.

Definition no_faults : Faults := λ _, false.

(** A statement inside [tx]: it works on the uncommitted copy and either
    goes on or leaves with the reply of the failing branch (the deferred
    [tx.Rollback] then discards the copy). *)
Definition Tx (A : Type) : Type := DB → Response + DB * A.

Definition tx_ret {A} (a : A) : Tx A := λ db, inr (db, a).

Definition tx_bind {A B} (m : Tx A) (k : A → Tx B) : Tx B :=
  λ db, match m db with
        | inl r => inl r
        | inr (db', a) => k a db'
        end.

#[global] Instance tx_mret : MRet Tx := @tx_ret.
#[global] Instance tx_mbind : MBind Tx := λ A B k m, tx_bind m k.

Definition tx_query {A} (failed : bool) (msg : string) (q : DB → DB * A) : Tx A :=
  λ db, if failed then inl (respond_error StatusInternalServerError msg) else inr (q db).

Definition tx_exec (failed : bool) (msg : string) (upd : DB → DB) : Tx unit :=
  tx_query failed msg (λ db, (upd db, tt)).

(** [DB.Begin] and [tx.Commit]. *)
Definition tx_mark (failed : bool) (msg : string) : Tx unit := tx_exec failed msg id.

(** ** Points calculation *)

(** Material rates for points calculation *)
Definition materialRates : gmap string Z :=
  {[ "plastic" := 10; "glass" := 8; "metal" := 15; "paper" := 5 ]}.

(** CalculatePoints calculates points based on item type and weight *)
Definition CalculatePoints (itemType : string) (weight : float64) : Z :=
  match materialRates !! itemType with
  | None => 0
  | Some rate => Float64.to_int (Float64.mul weight (Float64.of_int rate))
  end.

(** ** Requests *)

Module RequestSessionRequest.
Record t : Type := { StationID : string }.
End RequestSessionRequest.

Module CheckSessionRequest.
Record t : Type := { SessionToken : string }.
End CheckSessionRequest.

Module ConnectSessionRequest.
Record t : Type := { SessionToken : string; AuthToken : string }.
End ConnectSessionRequest.

Module EndSessionRequest.
Record t : Type := { SessionToken : string }.
End EndSessionRequest.

Module SessionDepositRequest.
Record t : Type := { Material : string; Weight : float64; SessionToken : string }.
End SessionDepositRequest.

Module DepositRequest.
Record t : Type := { ItemType : string; Weight : float64 }.
End DepositRequest.

Module RedeemRequest.
Record t : Type := { Points : Z; Method : string; AccountInfo : string }.
End RedeemRequest.

Module RegisterRequest.
Record t : Type := { Email : string; Password : string; FullName : string }.
End RegisterRequest.

(** ** database.InitDB *)

(** [INSERT OR IGNORE INTO users (id, email, ..., total_points)]: the row is
    dropped when its id or its email is taken. *)
Definition insert_or_ignore_user (uid : Z) (u : Users.row) (db : DB) : DB :=
  if decide (is_Some (users db !! uid) ∨ email_taken (Users.email u) db) then db
  else {| users := <[uid := u]> (users db); users_seq := Z.max (users_seq db) uid;
          transactions := transactions db; redemptions := redemptions db;
          station_sessions := station_sessions db;
          station_sessions_seq := station_sessions_seq db |}.

Definition dummy_user : Users.row :=
  {| Users.email := "dummy@trash2cash.com"; Users.full_name := "Dummy User";
     Users.total_points := 1000 |}.

Definition demo_user : Users.row :=
  {| Users.email := "demo@trash2cash.com"; Users.full_name := "Demo User";
     Users.total_points := 2500 |}.

(** InitDB on the contents of the database file ([empty_db] for a new
    file): the tables are created if missing, then the two seeded accounts
    are inserted (hashing their fixed passwords does not fail). *)
Definition InitDB (db : DB) : DB :=
  insert_or_ignore_user 2 demo_user (insert_or_ignore_user 1 dummy_user db).

(** ** Handlers of session.go *)

Definition sessionTTL : Z := 5 * 60.

(** requestSession creates a new station session.  Fault 0 is the INSERT,
    fault 1 the QR encoder (its image is not part of the modelled reply). *)
Definition requestSession (now : Z) (sessionToken : string) (flt : Faults)
    (req : RequestSessionRequest.t) (db : DB) : DB * Response :=
  let expiresAt := now + sessionTTL in
  let stationID :=
    if String.eqb (RequestSessionRequest.StationID req) "" then "default"
    else RequestSessionRequest.StationID req in
  if flt 0%nat || bool_decide (is_Some (station_sessions db !! sessionToken)) then
    (db, respond_error StatusInternalServerError "Failed to create session")
  else
    let sid := station_sessions_seq db + 1 in
    let db' :=
      {| users := users db; users_seq := users_seq db;
         transactions := transactions db; redemptions := redemptions db;
         station_sessions :=
           <[sessionToken :=
               {| StationSessions.id := sid; StationSessions.station_id := stationID;
                  StationSessions.user_id := None; StationSessions.status := "pending";
                  StationSessions.auth_token := None;
                  StationSessions.expires_at := expiresAt;
                  StationSessions.ended_at := None |}]> (station_sessions db);
         station_sessions_seq := sid |} in
    if flt 1%nat then
      (db', respond_error StatusInternalServerError "Failed to generate QR code")
    else
      (db', respond_ok StatusOK "Session token generated"
              [("sessionToken", JString sessionToken); ("expiresAt", JTime expiresAt);
               ("status", JString "pending")]).

(** checkSession checks the status of a station session.  Fault 0 is the
    UPDATE that marks the row expired; its error is ignored by the handler.
    The user query of the last branch, [SELECT id, email, name, total_points
    FROM users], names the column [name], which InitDB declares as
    [full_name]: the statement is refused and the branch always answers
    "Failed to retrieve user details". *)
Definition checkSession (now : Z) (flt : Faults)
    (req : CheckSessionRequest.t) (db : DB) : DB * Response :=
  let token := CheckSessionRequest.SessionToken req in
  if String.eqb token "" then
    (db, respond_error StatusBadRequest "Session token is required")
  else
    match station_sessions db !! token with
    | None => (db, respond_error StatusNotFound "Session not found")
    | Some s =>
        if StationSessions.expires_at s <? now then
          ((if flt 0%nat then db
            else with_station_sessions (alter (StationSessions.set_status "expired") token) db),
           respond_error StatusUnauthorized "Session has expired")
        else
          match StationSessions.user_id s with
          | None => (db, respond_ok StatusOK "" [("status", JString "pending")])
          | Some userID =>
              if String.eqb (StationSessions.status s) "pending" then
                (db, respond_ok StatusOK "" [("status", JString "pending")])
              else
                (db, respond_error StatusInternalServerError
                       "Failed to retrieve user details")
          end
    end.

(** connectSession connects an authenticated user to a station session.
    [verifyJWT] is the verifier of router.go; fault 0 is the UPDATE. *)
Definition connectSession (verifyJWT : string → option Z) (now : Z) (flt : Faults)
    (req : ConnectSessionRequest.t) (db : DB) : DB * Response :=
  let token := ConnectSessionRequest.SessionToken req in
  let authToken := ConnectSessionRequest.AuthToken req in
  if String.eqb token "" || String.eqb authToken "" then
    (db, respond_error StatusBadRequest "Session token and auth token are required")
  else
    match verifyJWT authToken with
    | None => (db, respond_error StatusUnauthorized "Invalid auth token")
    | Some userID =>
        match station_sessions db !! token with
        | None => (db, respond_error StatusNotFound "Session not found")
        | Some s =>
            if StationSessions.expires_at s <? now then
              (db, respond_error StatusUnauthorized "Session has expired")
            else
              match StationSessions.user_id s with
              | Some _ =>
                  (db, respond_error StatusConflict "Session is already connected to a user")
              | None =>
                  if flt 0%nat then
                    (db, respond_error StatusInternalServerError "Failed to connect session")
                  else
                    (with_station_sessions
                       (alter (StationSessions.set_connected userID authToken "connected") token) db,
                     respond_ok StatusOK "User connected to station session" [])
              end
        end
    end.

(** endSession ends a station session: "Update session status to expired
    and set ended_at", for whichever row carries the token.  Fault 0 is the
    UPDATE. *)
Definition endSession (now : Z) (flt : Faults)
    (req : EndSessionRequest.t) (db : DB) : DB * Response :=
  let token := EndSessionRequest.SessionToken req in
  if String.eqb token "" then
    (db, respond_error StatusBadRequest "Session token is required")
  else if flt 0%nat then
    (db, respond_error StatusInternalServerError "Failed to end session")
  else
    match station_sessions db !! token with
    | None => (db, respond_error StatusNotFound "Session not found")
    | Some _ =>
        (with_station_sessions (alter (StationSessions.set_ended "expired" now) token) db,
         respond_ok StatusOK "Session ended" [])
    end.

(** deposit processes a deposit during an active session.  [userID] is the
    identity that the middleware put in the header.  Faults: 0 Begin,
    1 INSERT, 2 UPDATE users, 3 UPDATE station_sessions, 4 Commit. *)
Definition deposit (flt : Faults) (userID : Z)
    (req : SessionDepositRequest.t) (db : DB) : DB * Response :=
  let material := SessionDepositRequest.Material req in
  let weight := SessionDepositRequest.Weight req in
  let token := SessionDepositRequest.SessionToken req in
  if String.eqb material "" || Float64.leb weight Float64.zero || String.eqb token "" then
    (db, respond_error StatusBadRequest "Material, weight, and session token are required")
  else
    match station_sessions db !! token with
    | None => (db, respond_error StatusNotFound "Session not found")
    | Some s =>
        if bool_decide (StationSessions.user_id s ≠ Some userID) then
          (db, respond_error StatusForbidden "Session not linked to this user")
        else
          let points := CalculatePoints material weight in
          if points =? 0 then
            (db, respond_error StatusBadRequest "Invalid material type")
          else
            match
              (tx_mark (flt 0%nat) "Failed to process deposit";;
               transactionID ←
                 tx_query (flt 1%nat) "Failed to record transaction"
                   (insert_transaction (λ i,
                      {| Transactions.id := i; Transactions.user_id := userID;
                         Transactions.type := "deposit";
                         Transactions.amount := Float64.zero;
                         Transactions.item_type := material;
                         Transactions.weight := weight;
                         Transactions.points_earned := points;
                         Transactions.station_id := 1;
                         Transactions.session_token := Some token |}));
               tx_exec (flt 2%nat) "Failed to update user balance"
                 (update_points userID points);;
               tx_exec (flt 3%nat) "Failed to update session"
                 (with_station_sessions (alter (StationSessions.set_status "active") token));;
               tx_mark (flt 4%nat) "Failed to complete deposit";;
               mret transactionID) db
            with
            | inl r => (db, r)
            | inr (db', transactionID) =>
                (db', respond_ok StatusOK "Deposit recorded successfully"
                        [("newBalance", JInt (BalanceOf db' userID));
                         ("pointsEarned", JInt points);
                         ("transactionId", JInt transactionID)])
            end
    end.

(** ** Handlers of the transaction and redemption files *)

(** The body shared, statement for statement, by createTransaction and
    processDeposit, which differ in their messages and in the reply only.
    Faults: 0 Begin, 1 INSERT, 2 UPDATE users, 3 Commit. *)
Definition record_deposit (flt : Faults) (msgs : string * string * string * string)
    (userID : Z) (req : DepositRequest.t) (points : Z) : Tx Z :=
  let '(m_begin, m_insert, m_update, m_commit) := msgs in
  tx_mark (flt 0%nat) m_begin;;
  i ← tx_query (flt 1%nat) m_insert
        (insert_transaction (λ i,
           {| Transactions.id := i; Transactions.user_id := userID;
              Transactions.type := "deposit";
              Transactions.amount := Float64.zero;
              Transactions.item_type := DepositRequest.ItemType req;
              Transactions.weight := DepositRequest.Weight req;
              Transactions.points_earned := points;
              Transactions.station_id := 1;
              Transactions.session_token := None |}));
  tx_exec (flt 2%nat) m_update (update_points userID points);;
  tx_mark (flt 3%nat) m_commit;;
  mret i.

(** createTransaction creates a new transaction (manual entry) *)
Definition createTransaction (flt : Faults) (userID : Z)
    (req : DepositRequest.t) (db : DB) : DB * Response :=
  let points := CalculatePoints (DepositRequest.ItemType req) (DepositRequest.Weight req) in
  if points =? 0 then
    (db, respond_error StatusBadRequest "Invalid item type")
  else
    match
      record_deposit flt
        ("Failed to process transaction", "Failed to save transaction",
         "Failed to update points", "Failed to complete transaction")
        userID req points db
    with
    | inl r => (db, r)
    | inr (db', txID) =>
        (db', respond_ok StatusCreated "Transaction successful"
                [("id", JInt txID); ("points_earned", JInt points);
                 ("total_points", JInt (BalanceOf db' userID))])
    end.

(** processDeposit processes an item deposit at the station *)
Definition processDeposit (now : Z) (flt : Faults) (userID : Z)
    (req : DepositRequest.t) (db : DB) : DB * Response :=
  let points := CalculatePoints (DepositRequest.ItemType req) (DepositRequest.Weight req) in
  if points =? 0 then
    (db, respond_error StatusBadRequest "Invalid item type")
  else
    match
      record_deposit flt
        ("Failed to process deposit", "Failed to save deposit",
         "Failed to update points", "Failed to complete deposit")
        userID req points db
    with
    | inl r => (db, r)
    | inr (db', depositID) =>
        (db', respond_ok StatusCreated "Deposit processed successfully"
                [("id", JInt depositID);
                 ("item_type", JString (DepositRequest.ItemType req));
                 ("weight", JFloat (DepositRequest.Weight req));
                 ("points_earned", JInt points);
                 ("total_points", JInt (BalanceOf db' userID));
                 ("timestamp", JTime now)])
    end.

(** The cash paid per point: "100 points = Rp 1,000". *)
Definition cashPerPoint : float64 := Float64.of_int 10.

(** redeemPoints processes a points redemption.  Faults: 0 Begin,
    1 INSERT redemptions, 2 UPDATE users, 3 INSERT transactions, 4 Commit. *)
Definition redeemPoints (flt : Faults) (userID : Z)
    (req : RedeemRequest.t) (db : DB) : DB * Response :=
  let points := RedeemRequest.Points req in
  if points <=? 0 then
    (db, respond_error StatusBadRequest "Invalid points amount")
  else
    let totalPoints := BalanceOf db userID in
    if totalPoints <? points then
      (db, respond_error StatusBadRequest "Insufficient points")
    else
      let amountCash := Float64.mul (Float64.of_int points) cashPerPoint in
      match
        (tx_mark (flt 0%nat) "Failed to process redemption";;
         redemptionID ←
           tx_query (flt 1%nat) "Failed to save redemption"
             (insert_redemption (λ i,
                {| Redemptions.id := i; Redemptions.user_id := userID;
                   Redemptions.points_used := points;
                   Redemptions.amount_cash := amountCash;
                   Redemptions.method := RedeemRequest.Method req;
                   Redemptions.status := "pending";
                   Redemptions.account_info := RedeemRequest.AccountInfo req |}));
         tx_exec (flt 2%nat) "Failed to update points" (deduct_points userID points);;
         tx_query (flt 3%nat) "Failed to record transaction"
           (insert_transaction (λ i,
              {| Transactions.id := i; Transactions.user_id := userID;
                 Transactions.type := "redemption";
                 Transactions.amount := amountCash;
                 Transactions.item_type := "redemption";
                 Transactions.weight := Float64.zero;
                 Transactions.points_earned := - points;
                 Transactions.station_id := 1;
                 Transactions.session_token := None |}));;
         tx_mark (flt 4%nat) "Failed to complete redemption";;
         mret redemptionID) db
      with
      | inl r => (db, r)
      | inr (db', redemptionID) =>
          (db', respond_ok StatusCreated "Redemption successful"
                  [("id", JInt redemptionID);
                   ("points_redeemed", JInt points);
                   ("amount_cash", JFloat amountCash);
                   ("method", JString (RedeemRequest.Method req));
                   ("status", JString "pending");
                   ("remaining_points", JInt (BalanceOf db' userID))])
      end.

(** register creates a new user account.  Fault 0 is the password hash,
    fault 1 the INSERT, which also fails when the email is taken. *)
Definition register (flt : Faults) (req : RegisterRequest.t) (db : DB) : DB * Response :=
  if String.eqb (RegisterRequest.Email req) "" || String.eqb (RegisterRequest.Password req) ""
     || String.eqb (RegisterRequest.FullName req) "" then
    (db, respond_error StatusBadRequest "Email, password, and full name are required")
  else if flt 0%nat then
    (db, respond_error StatusInternalServerError "Failed to process password")
  else if flt 1%nat || bool_decide (email_taken (RegisterRequest.Email req) db) then
    (db, respond_error StatusConflict "Email already exists")
  else
    let userID := users_seq db + 1 in
    ({| users := <[userID := {| Users.email := RegisterRequest.Email req;
                                Users.full_name := RegisterRequest.FullName req;
                                Users.total_points := 0 |}]> (users db);
        users_seq := userID;
        transactions := transactions db; redemptions := redemptions db;
        station_sessions := station_sessions db;
        station_sessions_seq := station_sessions_seq db |},
     respond_ok StatusCreated "Registration successful"
       [("id", JInt userID); ("email", JString (RegisterRequest.Email req));
        ("full_name", JString (RegisterRequest.FullName req))]).

(** ** The public operations as a transition system *)

(** The calls that write to the modelled tables and columns; login, the QR
    login of auth.go, the profile update and the read-only routes touch other
    tables or columns only.  The protected routes carry the identity resolved
    from the bearer token. *)
Inductive request : Type :=
| Register (req : RegisterRequest.t)
| RequestSession (sessionToken : string) (req : RequestSessionRequest.t)
| CheckSession (req : CheckSessionRequest.t)
| ConnectSession (verifyJWT : string → option Z) (req : ConnectSessionRequest.t)
| EndSession (req : EndSessionRequest.t)
| Deposit (userID : Z) (req : SessionDepositRequest.t)
| CreateTransaction (userID : Z) (req : DepositRequest.t)
| ProcessDeposit (userID : Z) (req : DepositRequest.t)
| RedeemPoints (userID : Z) (req : RedeemRequest.t).

Definition handle (now : Z) (flt : Faults) (rq : request) (db : DB) : DB * Response :=
  match rq with
  | Register req => register flt req db
  | RequestSession tok req => requestSession now tok flt req db
  | CheckSession req => checkSession now flt req db
  | ConnectSession verifyJWT req => connectSession verifyJWT now flt req db
  | EndSession req => endSession now flt req db
  | Deposit userID req => deposit flt userID req db
  | CreateTransaction userID req => createTransaction flt userID req db
  | ProcessDeposit userID req => processDeposit now flt userID req db
  | RedeemPoints userID req => redeemPoints flt userID req db
  end.

(** A bearer token is only ever signed for an account of the [users] table
    (login signs the id of the row it has read), so the identity of a
    protected call is a registered user. *)
Definition authenticated (db : DB) (rq : request) : Prop :=
  match rq with
  | Deposit userID _ | CreateTransaction userID _
  | ProcessDeposit userID _ | RedeemPoints userID _ => is_Some (users db !! userID)
  | _ => True
  end.

(** The database after a sequence of calls, each with its clock reading and
    its storage faults. *)
Fixpoint run (calls : list (Z * Faults * request)) (db : DB) : DB :=
  match calls with
  | [] => db
  | (now, flt, rq) :: rest => run rest (handle now flt rq db).1
  end.

Inductive reachable : DB → Prop :=
| reachable_init : reachable (InitDB empty_db)
| reachable_restart db : reachable db → reachable (InitDB db)
| reachable_step db now flt rq :
    reachable db → authenticated db rq → reachable (handle now flt rq db).1.

(** ** Vocabulary of the properties *)

(** The balance an account is created with: the two accounts seeded by
    InitDB start at 1000 and 2500 points, registered accounts at 0. *)
Definition opening_balance (userID : Z) : Z :=
  if decide (userID = 1) then 1000 else if decide (userID = 2) then 2500 else 0.

Definition entry_delta (e : Transactions.row) (owner : Z) : Z :=
  if decide (Transactions.user_id e = owner) then Transactions.points_earned e else 0.

Definition caller (rq : request) : option Z :=
  match rq with
  | Deposit userID _ | CreateTransaction userID _
  | ProcessDeposit userID _ | RedeemPoints userID _ => Some userID
  | _ => None
  end.

(** An update of a [users] row that moves its points by [delta]: where the
    column holds an integer and the sum is a 64-bit integer, the column holds
    the sum afterwards. *)
Definition moves_points (delta : Z) (upd : Users.row → Users.row) : Prop :=
  ∀ u i, Users.total_points u = Sqlite.Integer i →
    Sqlite.in_int64 (Sqlite.int64 i + delta) = true →
    Users.total_points (upd u) = Sqlite.Integer (Sqlite.int64 i + delta).

(** What a call may do to the accounts and the ledger. *)
Inductive ledger_effect (who : option Z) (db db' : DB) : Prop :=
| effect_none :
    users db' = users db → users_seq db' = users_seq db →
    transactions db' = transactions db → ledger_effect who db db'
| effect_entry e upd :
    who = Some (Transactions.user_id e) →
    Transactions.points_earned e ≠ 0 →
    transactions db' = transactions db ++ [e] →
    users db' = alter upd (Transactions.user_id e) (users db) →
    moves_points (Transactions.points_earned e) upd →
    users_seq db' = users_seq db → ledger_effect who db db'
| effect_register u :
    Users.total_points u = Sqlite.Integer 0 →
    users db' = <[users_seq db + 1 := u]> (users db) →
    users_seq db' = users_seq db + 1 →
    transactions db' = transactions db → ledger_effect who db db'.

(** The owner's running total has never left the 64-bit integers: after
    each entry of the ledger, in the order in which the entries were
    written, the opening balance plus the deltas so far is a 64-bit
    integer. *)
Definition never_overflowed (l : list Transactions.row) (owner : Z) : Prop :=
  ∀ n, Sqlite.in_int64 (opening_balance owner + ledger_sum (take n l) owner) = true.

(** The invariant behind the balance projection. *)
Record ledger_inv (db : DB) : Prop := {
  inv_balance : ∀ userID u, users db !! userID = Some u →
    never_overflowed (transactions db) userID →
    Users.total_points u
    = Sqlite.Integer (opening_balance userID + ledger_sum (transactions db) userID);
  inv_owners : ∀ e, e ∈ transactions db → is_Some (users db !! Transactions.user_id e);
  inv_seq : ∀ userID, is_Some (users db !! userID) → userID ≤ users_seq db
}.

Definition seeded (db : DB) : Prop :=
  is_Some (users db !! 1) ∧ is_Some (users db !! 2).


(** The input validation of deposit: "Material, weight, and session token
    are required". *)
Definition deposit_input_valid (req : SessionDepositRequest.t) : Prop :=
  SessionDepositRequest.Material req ≠ "" ∧
  Float64.leb (SessionDepositRequest.Weight req) Float64.zero = false ∧
  SessionDepositRequest.SessionToken req ≠ "".

(** ** A worked scenario

    Station "default" opens a session at time 1000 (deadline 1300), user 1
    binds it at 1010, deposits 2 kg of metal, and the session is ended at
    1020. *)

Definition sample_verifyJWT (authToken : string) : option Z :=
  if String.eqb authToken "jwt-1" then Some 1
  else if String.eqb authToken "jwt-2" then Some 2 else None.

Definition session_A : StationSessions.row :=
  {| StationSessions.id := 1; StationSessions.station_id := "default";
     StationSessions.user_id := None; StationSessions.status := "pending";
     StationSessions.auth_token := None; StationSessions.expires_at := 1300;
     StationSessions.ended_at := None |}.

Definition bind_A_user1 : ConnectSessionRequest.t :=
  {| ConnectSessionRequest.SessionToken := "token-A";
     ConnectSessionRequest.AuthToken := "jwt-1" |}.

Definition bind_A_user2 : ConnectSessionRequest.t :=
  {| ConnectSessionRequest.SessionToken := "token-A";
     ConnectSessionRequest.AuthToken := "jwt-2" |}.

Definition end_A : EndSessionRequest.t :=
  {| EndSessionRequest.SessionToken := "token-A" |}.

Definition metal_2kg_A : SessionDepositRequest.t :=
  {| SessionDepositRequest.Material := "metal";
     SessionDepositRequest.Weight := Float64.of_int 2;
     SessionDepositRequest.SessionToken := "token-A" |}.

Definition db_pending : DB :=
  (requestSession 1000 "token-A" no_faults
     {| RequestSessionRequest.StationID := "" |} (InitDB empty_db)).1.

Definition db_connected : DB :=
  (connectSession sample_verifyJWT 1010 no_faults bind_A_user1 db_pending).1.

Definition db_active : DB := (deposit no_faults 1 metal_2kg_A db_connected).1.

Definition db_ended : DB := (endSession 1020 no_faults end_A db_active).1.

Definition check_A : CheckSessionRequest.t :=
  {| CheckSessionRequest.SessionToken := "token-A" |}.

(** The session of the scenario, polled after its deadline instead of ended. *)
Definition db_expired : DB := (checkSession 2000 no_faults check_A db_active).1.

Definition no_weight_A : SessionDepositRequest.t :=
  {| SessionDepositRequest.Material := "metal";
     SessionDepositRequest.Weight := Float64.zero;
     SessionDepositRequest.SessionToken := "token-A" |}.

Definition plastic_1kg : DepositRequest.t :=
  {| DepositRequest.ItemType := "plastic"; DepositRequest.Weight := Float64.of_int 1 |}.

(** 9e17 kg of plastic: 9e18 points, just below [2^63]. *)
Definition plastic_9e17kg : DepositRequest.t :=
  {| DepositRequest.ItemType := "plastic";
     DepositRequest.Weight := Float64.of_int (9 * 10 ^ 17) |}.

(** Account 1 after one such deposit, and after two. *)
Definition db_9e18 : DB :=
  (handle 0 no_faults (CreateTransaction 1 plastic_9e17kg) (InitDB empty_db)).1.

Definition db_overflowed : DB :=
  (handle 0 no_faults (CreateTransaction 1 plastic_9e17kg) db_9e18).1.

Definition plastic_minus_1kg : DepositRequest.t :=
  {| DepositRequest.ItemType := "plastic"; DepositRequest.Weight := Float64.of_int (-1) |}.



Definition redeem_100_cash : RedeemRequest.t :=
  {| RedeemRequest.Points := 100; RedeemRequest.Method := "cash";
     RedeemRequest.AccountInfo := "" |}.

(** The JSON number 1e18. *)
Definition w_1e18 : float64 := Float64.of_int (10 ^ 18).

(** The session of the scenario, ended before anyone has bound it. *)
Definition db_ended_unbound : DB := (endSession 1020 no_faults end_A db_pending).1.

(** ** Vocabulary of the further properties *)

(** The rows the handlers write. *)
Definition new_session (sid : Z) (stationID : string) (expiresAt : Z) : StationSessions.row :=
  {| StationSessions.id := sid; StationSessions.station_id := stationID;
     StationSessions.user_id := None; StationSessions.status := "pending";
     StationSessions.auth_token := None; StationSessions.expires_at := expiresAt;
     StationSessions.ended_at := None |}.

Definition deposit_entry (userID : Z) (itemType : string) (weight : float64)
    (token : option string) (i : Z) : Transactions.row :=
  {| Transactions.id := i; Transactions.user_id := userID;
     Transactions.type := "deposit"; Transactions.amount := Float64.zero;
     Transactions.item_type := itemType; Transactions.weight := weight;
     Transactions.points_earned := CalculatePoints itemType weight;
     Transactions.station_id := 1; Transactions.session_token := token |}.

Definition redemption_entry (userID points : Z) (i : Z) : Transactions.row :=
  {| Transactions.id := i; Transactions.user_id := userID;
     Transactions.type := "redemption";
     Transactions.amount := Float64.mul (Float64.of_int points) cashPerPoint;
     Transactions.item_type := "redemption"; Transactions.weight := Float64.zero;
     Transactions.points_earned := - points;
     Transactions.station_id := 1; Transactions.session_token := None |}.

Definition redemption_row (userID points : Z) (method accountInfo : string) (i : Z)
    : Redemptions.row :=
  {| Redemptions.id := i; Redemptions.user_id := userID;
     Redemptions.points_used := points;
     Redemptions.amount_cash := Float64.mul (Float64.of_int points) cashPerPoint;
     Redemptions.method := method; Redemptions.status := "pending";
     Redemptions.account_info := accountInfo |}.

(** Everything a call can do to the database: one case per writing branch
    of the handlers. *)
Inductive call_effect (now : Z) (db : DB) : DB → Prop :=
| call_unchanged : call_effect now db db
| call_session_created tok stationID :
    station_sessions db !! tok = None →
    call_effect now db
      {| users := users db; users_seq := users_seq db;
         transactions := transactions db; redemptions := redemptions db;
         station_sessions :=
           <[tok := new_session (station_sessions_seq db + 1) stationID (now + sessionTTL)]>
             (station_sessions db);
         station_sessions_seq := station_sessions_seq db + 1 |}
| call_session_expired tok s :
    station_sessions db !! tok = Some s → StationSessions.expires_at s < now →
    call_effect now db
      (with_station_sessions (alter (StationSessions.set_status "expired") tok) db)
| call_session_ended tok s :
    station_sessions db !! tok = Some s →
    call_effect now db
      (with_station_sessions (alter (StationSessions.set_ended "expired" now) tok) db)
| call_session_connected tok s userID authToken :
    station_sessions db !! tok = Some s → StationSessions.user_id s = None →
    now ≤ StationSessions.expires_at s → authToken ≠ "" →
    call_effect now db
      (with_station_sessions
         (alter (StationSessions.set_connected userID authToken "connected") tok) db)
| call_session_deposit tok s userID itemType weight :
    station_sessions db !! tok = Some s → StationSessions.user_id s = Some userID →
    CalculatePoints itemType weight ≠ 0 →
    call_effect now db
      (with_station_sessions (alter (StationSessions.set_status "active") tok)
         (update_points userID (CalculatePoints itemType weight)
            (insert_transaction (deposit_entry userID itemType weight (Some tok)) db).1))
| call_direct_deposit userID itemType weight :
    CalculatePoints itemType weight ≠ 0 →
    call_effect now db
      (update_points userID (CalculatePoints itemType weight)
         (insert_transaction (deposit_entry userID itemType weight None) db).1)
| call_redeemed userID points method accountInfo :
    0 < points ≤ BalanceOf db userID →
    call_effect now db
      (insert_transaction (redemption_entry userID points)
         (deduct_points userID points
            (insert_redemption (redemption_row userID points method accountInfo) db).1)).1
| call_registered email fullName :
    ¬ email_taken email db →
    call_effect now db
      {| users := <[users_seq db + 1 :=
                      {| Users.email := email; Users.full_name := fullName;
                         Users.total_points := 0 |}]> (users db);
         users_seq := users_seq db + 1;
         transactions := transactions db; redemptions := redemptions db;
         station_sessions := station_sessions db;
         station_sessions_seq := station_sessions_seq db |}.

(** The states a session row is found in. *)
Definition session_statuses : list string := ["pending"; "connected"; "active"; "expired"].

Definition session_row_ok (s : StationSessions.row) : Prop :=
  StationSessions.status s ∈ session_statuses ∧
  (StationSessions.status s = "pending" →
     StationSessions.user_id s = None ∧ StationSessions.ended_at s = None) ∧
  (StationSessions.status s = "connected" ∨ StationSessions.status s = "active" →
     is_Some (StationSessions.user_id s)) ∧
  (is_Some (StationSessions.user_id s) ↔ is_Some (StationSessions.auth_token s)).

Record session_inv (db : DB) : Prop := {
  sess_seq : 0 ≤ station_sessions_seq db;
  sess_ids : ∀ tok s, station_sessions db !! tok = Some s →
    1 ≤ StationSessions.id s ≤ station_sessions_seq db;
  sess_ids_unique : ∀ t1 t2 s1 s2,
    station_sessions db !! t1 = Some s1 → station_sessions db !! t2 = Some s2 →
    StationSessions.id s1 = StationSessions.id s2 → t1 = t2;
  sess_rows : ∀ tok s, station_sessions db !! tok = Some s → session_row_ok s
}.

(** The two kinds of ledger entry. *)
Definition is_deposit_entry (e : Transactions.row) : Prop :=
  Transactions.type e = "deposit" ∧
  Transactions.points_earned e
  = CalculatePoints (Transactions.item_type e) (Transactions.weight e) ∧
  Transactions.points_earned e ≠ 0 ∧
  Transactions.amount e = Float64.zero.

Definition is_redemption_entry (e : Transactions.row) : Prop :=
  Transactions.type e = "redemption" ∧
  Transactions.item_type e = "redemption" ∧
  Transactions.points_earned e < 0 ∧
  Transactions.weight e = Float64.zero ∧
  Transactions.amount e
  = Float64.mul (Float64.of_int (- Transactions.points_earned e)) cashPerPoint ∧
  Transactions.session_token e = None.

Record entries_inv (db : DB) : Prop := {
  entries_ids : ∀ i e, transactions db !! i = Some e →
    Transactions.id e = Z.of_nat i + 1;
  entries_kinds : ∀ e, e ∈ transactions db →
    Transactions.station_id e = 1 ∧ (is_deposit_entry e ∨ is_redemption_entry e);
  entries_sessions : ∀ e tok, e ∈ transactions db →
    Transactions.session_token e = Some tok →
    ∃ s, station_sessions db !! tok = Some s ∧
         StationSessions.user_id s = Some (Transactions.user_id e)
}.

Definition is_redemption (e : Transactions.row) : Prop :=
  Transactions.type e = "redemption".

#[global] Instance is_redemption_dec e : Decision (is_redemption e) :=
  decide (Transactions.type e = "redemption").

(** Owner, points and cash of a redemption record and of a ledger entry. *)
Definition redemption_summary (r : Redemptions.row) : Z * Z * float64 :=
  (Redemptions.user_id r, Redemptions.points_used r, Redemptions.amount_cash r).

Definition entry_summary (e : Transactions.row) : Z * Z * float64 :=
  (Transactions.user_id e, - Transactions.points_earned e, Transactions.amount e).

Record redemptions_inv (db : DB) : Prop := {
  red_ids : ∀ i r, redemptions db !! i = Some r → Redemptions.id r = Z.of_nat i + 1;
  red_rows : ∀ r, r ∈ redemptions db →
    Redemptions.status r = "pending" ∧ 0 < Redemptions.points_used r;
  red_ledger :
    redemption_summary <$> redemptions db
    = entry_summary <$> filter is_redemption (transactions db)
}.

Definition emails_unique (db : DB) : Prop :=
  ∀ i j ui uj, users db !! i = Some ui → users db !! j = Some uj →
    Users.email ui = Users.email uj → i = j.

(** What stays of a session row: its id, station and deadline, and, once a
    user is bound, the user and the credential. *)
Definition session_kept (s s' : StationSessions.row) : Prop :=
  StationSessions.id s' = StationSessions.id s ∧
  StationSessions.station_id s' = StationSessions.station_id s ∧
  StationSessions.expires_at s' = StationSessions.expires_at s ∧
  (is_Some (StationSessions.user_id s) →
   StationSessions.user_id s' = StationSessions.user_id s ∧
   StationSessions.auth_token s' = StationSessions.auth_token s).

(** ** Read-only configuration *)

(** The ["supported_materials"] that getStationConfig of user.go advertises
    next to [materialRates]. *)
Definition supported_materials : list string := ["plastic"; "glass"; "metal"; "paper"].

Module RedemptionOption.
Record t : Type := {
  method : string;
  name : string;
  min_points : Z;
  conversion_rate : Z;
  description : string
}.
End RedemptionOption.

(** getRedemptionOptions retrieves available redemption methods: the
    caller's points (0 when the row is missing, as the error of [Scan] is
    ignored) and the list of options. *)
Definition getRedemptionOptions (userID : Z) (db : DB) : Z * list RedemptionOption.t :=
  let totalPoints := BalanceOf db userID in
  let options :=
    [ {| RedemptionOption.method := "bank"; RedemptionOption.name := "Bank Transfer";
         RedemptionOption.min_points := 1000; RedemptionOption.conversion_rate := 100;
         RedemptionOption.description := "Transfer to your bank account" |};
      {| RedemptionOption.method := "cash"; RedemptionOption.name := "Cash Pickup";
         RedemptionOption.min_points := 500; RedemptionOption.conversion_rate := 100;
         RedemptionOption.description := "Pick up cash at station" |};
      {| RedemptionOption.method := "voucher"; RedemptionOption.name := "Shopping Voucher";
         RedemptionOption.min_points := 250; RedemptionOption.conversion_rate := 100;
         RedemptionOption.description := "Redeem for shopping vouchers" |} ] in
  (totalPoints, options).

(** ** authMiddleware of router.go *)

(** What [jwt.Parse] makes of a token string: an error or an invalid token,
    claims that are not a [jwt.MapClaims], or the claims, of which the
    middleware reads ["user_id"] (a string or not). *)
Inductive parsed : Type :=
| ParseError
| ForeignClaims
| MapClaims (user_id : option string).

(** The three ways the middleware ends: it answers itself, the unchecked
    assertion [claims["user_id"].(string)] panics, or the next handler runs
    with the header X-User-ID set. *)
Inductive outcome : Type :=
| Answered (r : Response)
| Panicked
| Next (xUserID : string).

(** The token string once the "Bearer " prefix is removed, if present. *)
Definition bearerToken (tokenString : string) : string :=
  if (7 <? Z.of_nat (String.length tokenString))
     && String.eqb (String.substring 0 7 tokenString) "Bearer "
  then String.substring 7 (String.length tokenString - 7) tokenString
  else tokenString.

(** authMiddleware validates JWT tokens *)
Definition authMiddleware (parse : string → parsed) (authorization : string) : outcome :=
  if String.eqb authorization "" then
    Answered (respond_error StatusUnauthorized "Authorization token required")
  else
    match parse (bearerToken authorization) with
    | ParseError => Answered (respond_error StatusUnauthorized "Invalid token")
    | ForeignClaims => Answered (respond_error StatusUnauthorized "Invalid token claims")
    | MapClaims None => Panicked
    | MapClaims (Some userID) => Next userID
    end.

(** ** Totals per owner *)

Definition is_deposit_of (owner : Z) (e : Transactions.row) : Prop :=
  Transactions.user_id e = owner ∧ Transactions.type e = "deposit".

#[global] Instance is_deposit_of_dec owner e : Decision (is_deposit_of owner e) :=
  and_dec (decide (Transactions.user_id e = owner))
          (decide (Transactions.type e = "deposit")).

(** The points of the owner's ledger entries of type "deposit". *)
Definition deposited_points (db : DB) (owner : Z) : Z :=
  foldr Z.add 0 (Transactions.points_earned <$> filter (is_deposit_of owner) (transactions db)).

(** The points of the owner's records in the redemption table. *)
Definition redeemed_points (db : DB) (owner : Z) : Z :=
  foldr Z.add 0
    (Redemptions.points_used
       <$> filter (λ r, Redemptions.user_id r = owner) (redemptions db)).

(** The points of the summaries of one owner. *)
Definition summary_points (owner : Z) (l : list (Z * Z * float64)) : Z :=
  foldr (λ x acc, if decide (x.1.1 = owner) then x.1.2 + acc else acc) 0 l.

(** The sessioned and the direct form of one deposit. *)
Definition sessioned (material : string) (weight : float64) (token : string)
    : SessionDepositRequest.t :=
  {| SessionDepositRequest.Material := material;
     SessionDepositRequest.Weight := weight;
     SessionDepositRequest.SessionToken := token |}.

Definition direct (material : string) (weight : float64) : DepositRequest.t :=
  {| DepositRequest.ItemType := material; DepositRequest.Weight := weight |}.

(** The user bound to the session of a token, if there is one. *)
Definition bound_user (db : DB) (token : string) : option Z :=
  station_sessions db !! token ≫= StationSessions.user_id.

(** ** Login and QR login of auth.go *)

(** The [sessions] table of the QR login, in insertion order.  The columns
    [token] and [qr_token] are UNIQUE, [id] is the AUTOINCREMENT key. *)
Module Sessions.
Record row : Type := {
  id : Z;
  user_id : option Z;
  token : string;
  qr_token : string;
  expires_at : Z
}.

Definition set_user (uid : Z) (s : row) : row :=
  {| id := id s; user_id := Some uid; token := token s; qr_token := qr_token s;
     expires_at := expires_at s |}.
End Sessions.

Record LoginDB : Type := {
  sessions : list Sessions.row;
  sessions_seq : Z
}.

Definition empty_login_db : LoginDB := {| sessions := []; sessions_seq := 0 |}.

(** What the handlers of auth.go take from outside the modelled tables: the
    [password] column of [users] (by user id), bcrypt's comparison, and the
    signing of a JWT, which can fail.  [generateJWT now userID] signs the
    claims [user_id] and [exp], the time of the call plus 24 hours, so the
    token depends on the clock. *)
Record Secrets : Type := {
  hashedPassword : Z → string;
  checkPasswordHash : string → string → bool;
  generateJWT : Z → Z → option string
}.

Module LoginRequest.
Record t : Type := { Email : string; Password : string }.
End LoginRequest.

Module VerifyTokenRequest.
Record t : Type := { QRToken : string; Email : string; Password : string }.
End VerifyTokenRequest.

Module LogoutRequest.
Record t : Type := { Token : string }.
End LogoutRequest.

(** [SELECT id, email, password, full_name, total_points FROM users WHERE
    email = ?] scanned into a [User]: the row with this email, of which a
    table that satisfies the UNIQUE constraint of the column has at most one.
    The [Scan] fails, as for a missing row, when [total_points] does not
    convert to an [int]. *)
Definition user_by_email (email : string) (db : DB) : option (Z * Users.row) :=
  match List.find (λ p, String.eqb (Users.email p.2) email) (map_to_list (users db)) with
  | Some (uid, u) =>
      match Sqlite.scan_int (Users.total_points u) with
      | Some _ => Some (uid, u)
      | None => None
      end
  | None => None
  end.

(** The ["user"] object of the replies, its keys prefixed. *)
Definition user_data (uid : Z) (u : Users.row) : list (string * JSON) :=
  [("user.id", JInt uid); ("user.email", JString (Users.email u));
   ("user.full_name", JString (Users.full_name u));
   ("user.total_points", JInt (default 0 (Sqlite.scan_int (Users.total_points u))))].

(** login authenticates a user with email and password *)
Definition login (sec : Secrets) (now : Z) (req : LoginRequest.t) (db : DB) : Response :=
  if String.eqb (LoginRequest.Email req) "" || String.eqb (LoginRequest.Password req) "" then
    respond_error StatusBadRequest "Email and password are required"
  else
    match user_by_email (LoginRequest.Email req) db with
    | None => respond_error StatusUnauthorized "Invalid email or password"
    | Some (uid, u) =>
        if negb (checkPasswordHash sec (LoginRequest.Password req) (hashedPassword sec uid)) then
          respond_error StatusUnauthorized "Invalid email or password"
        else
          match generateJWT sec now uid with
          | None =>
              respond_error StatusInternalServerError
                "Failed to generate authentication token"
          | Some jwtToken =>
              respond_ok StatusOK "Login successful"
                (("token", JString jwtToken) :: user_data uid u)
          end
    end.

(** generateQRLogin creates a QR login session.  [token] and [qrToken] are
    the two fresh UUIDs; fault 0 is the INSERT, which also fails on a token or
    QR token that is taken, fault 1 the QR encoder. *)
Definition generateQRLogin (now : Z) (token qrToken : string) (flt : Faults)
    (ldb : LoginDB) : LoginDB * Response :=
  let expiresAt := now + 5 * 60 in
  if flt 0%nat
     || existsb (λ s, String.eqb (Sessions.token s) token
                      || String.eqb (Sessions.qr_token s) qrToken) (sessions ldb) then
    (ldb, respond_error StatusInternalServerError "Failed to generate QR code session")
  else
    let sid := sessions_seq ldb + 1 in
    let ldb' :=
      {| sessions :=
           sessions ldb
           ++ [{| Sessions.id := sid; Sessions.user_id := None;
                  Sessions.token := token; Sessions.qr_token := qrToken;
                  Sessions.expires_at := expiresAt |}];
         sessions_seq := sid |} in
    if flt 1%nat then
      (ldb', respond_error StatusInternalServerError "Failed to generate QR code image")
    else
      (ldb', respond_ok StatusOK "QR code generated"
               [("token", JString token); ("qr_token", JString qrToken);
                ("expires_at", JTime expiresAt)]).

(** [UPDATE sessions SET user_id = ? WHERE id = ?] *)
Definition set_session_user (uid sid : Z) (ldb : LoginDB) : LoginDB :=
  {| sessions :=
       (λ x, if decide (Sessions.id x = sid) then Sessions.set_user uid x else x)
         <$> sessions ldb;
     sessions_seq := sessions_seq ldb |}.

(** verifyToken verifies and authenticates a QR token.  Fault 0 is the
    UPDATE. *)
Definition verifyToken (sec : Secrets) (now : Z) (flt : Faults)
    (req : VerifyTokenRequest.t) (db : DB) (ldb : LoginDB) : LoginDB * Response :=
  match
    List.find (λ s, String.eqb (Sessions.qr_token s) (VerifyTokenRequest.QRToken req))
      (sessions ldb)
  with
  | None => (ldb, respond_error StatusNotFound "Invalid QR token")
  | Some s =>
      if Sessions.expires_at s <? now then
        (ldb, respond_error StatusUnauthorized "QR token has expired")
      else
        match user_by_email (VerifyTokenRequest.Email req) db with
        | None => (ldb, respond_error StatusUnauthorized "Invalid credentials")
        | Some (uid, u) =>
            if negb (checkPasswordHash sec (VerifyTokenRequest.Password req)
                       (hashedPassword sec uid)) then
              (ldb, respond_error StatusUnauthorized "Invalid credentials")
            else if flt 0%nat then
              (ldb, respond_error StatusInternalServerError "Failed to update session")
            else
              let ldb' := set_session_user uid (Sessions.id s) ldb in
              match generateJWT sec now uid with
              | None =>
                  (ldb', respond_error StatusInternalServerError "Failed to generate token")
              | Some jwtToken =>
                  (ldb', respond_ok StatusOK "Authentication successful"
                           (("token", JString jwtToken)
                            :: ("session_token", JString (Sessions.token s))
                            :: user_data uid u))
              end
        end
  end.

(** logout invalidates the current session.  Fault 0 is the DELETE. *)
Definition logout (flt : Faults) (req : LogoutRequest.t) (ldb : LoginDB)
    : LoginDB * Response :=
  if flt 0%nat then
    (ldb, respond_error StatusInternalServerError "Failed to logout")
  else
    ({| sessions := filter (λ s, Sessions.token s ≠ LogoutRequest.Token req) (sessions ldb);
        sessions_seq := sessions_seq ldb |},
     respond_ok StatusOK "Logged out successfully" []).

(** The calls on the [sessions] table; verifyToken comes with the [users]
    table as it is at the time of the call. *)
Inductive login_request : Type :=
| GenerateQRLogin (token qrToken : string)
| VerifyToken (req : VerifyTokenRequest.t) (db : DB)
| Logout (req : LogoutRequest.t).

Definition handle_login (sec : Secrets) (now : Z) (flt : Faults) (rq : login_request)
    (ldb : LoginDB) : LoginDB * Response :=
  match rq with
  | GenerateQRLogin token qrToken => generateQRLogin now token qrToken flt ldb
  | VerifyToken req db => verifyToken sec now flt req db ldb
  | Logout req => logout flt req ldb
  end.

Inductive login_reachable (sec : Secrets) : LoginDB → Prop :=
| login_reachable_init : login_reachable sec empty_login_db
| login_reachable_step ldb now flt rq :
    login_reachable sec ldb → login_reachable sec (handle_login sec now flt rq ldb).1.

(** A password store for the examples: every password is stored in the
    clear, the seeded accounts have the passwords of InitDB. *)
Definition sample_secrets : Secrets :=
  {| hashedPassword := λ uid, if decide (uid = 1) then "dummy123" else "demo123";
     checkPasswordHash := String.eqb;
     generateJWT := λ _ uid, Some (if decide (uid = 1) then "jwt-1" else "jwt-2") |}.

Definition verify_Q_dummy : VerifyTokenRequest.t :=
  {| VerifyTokenRequest.QRToken := "qr-Q"; VerifyTokenRequest.Email := "dummy@trash2cash.com";
     VerifyTokenRequest.Password := "dummy123" |}.

Definition verify_Q_demo : VerifyTokenRequest.t :=
  {| VerifyTokenRequest.QRToken := "qr-Q"; VerifyTokenRequest.Email := "demo@trash2cash.com";
     VerifyTokenRequest.Password := "demo123" |}.

(** A QR login opened at time 1000 (deadline 1300). *)
Definition ldb_open : LoginDB :=
  (generateQRLogin 1000 "token-T" "qr-Q" no_faults empty_login_db).1.
(** * Properties *)

Ltac tx_unfold :=
  unfold record_deposit, mbind, tx_mbind, tx_bind, tx_mark, tx_exec, tx_query,
    mret, tx_mret, tx_ret, insert_transaction, insert_redemption.

(** ** Points calculation *)

Lemma truncate_floor m e :
  Float64.truncate (S754_finite false m e) = Qfloor (Float64.to_Q (S754_finite false m e)).
Proof.
  destruct e as [|p|p]; cbn [Float64.truncate Float64.to_Q cond_Zopp Qfloor inject_Z].
  - rewrite Z.shiftl_0_r, Z.pow_0_r, Z.mul_1_r, Z.div_1_r. reflexivity.
  - rewrite Z.shiftl_mul_pow2 by lia. rewrite Z.div_1_r. reflexivity.
  - change (Z.shiftl (Z.pos m) (Z.neg p)) with (Z.shiftr (Z.pos m) (Z.pos p)).
    rewrite Z.shiftr_div_pow2 by lia. rewrite Pos2Z.inj_pow. reflexivity.
Qed.

Lemma binary_round_aux_sign prec emax sx mx ex lx s m e :
  binary_round_aux prec emax sx mx ex lx = S754_finite s m e → s = sx.
Proof.
  unfold binary_round_aux.
  destruct (shr_fexp prec emax mx ex lx) as [mrs' e'].
  destruct (shr_fexp prec emax _ e' loc_Exact) as [mrs'' e''].
  destruct (shr_m mrs''); [discriminate| |discriminate].
  destruct (e'' <=? emax - prec)%Z; [|discriminate].
  intros [= -> _ _]. reflexivity.
Qed.

Lemma of_int_sign r s m e :
  0 < r → Float64.of_int r = S754_finite s m e → s = false.
Proof.
  intros Hr. destruct r as [|p|p]; try lia.
  unfold Float64.of_int, binary_normalize, binary_round.
  destruct (shl_align _ _ _) as [mz ez]. apply binary_round_aux_sign.
Qed.

Lemma mul_positive_sign w r s m e :
  Float64.ltb Float64.zero w = true → 0 < r →
  Float64.mul w (Float64.of_int r) = S754_finite s m e → s = false.
Proof.
  intros Hw Hr. pose proof (of_int_sign r) as Hy.
  destruct (Float64.of_int r) as [sy|sy| |sy my ey];
    destruct w as [sw|sw| |sw mw ew]; try discriminate.
  unfold Float64.mul, SFmul.
  destruct sw; [discriminate Hw|].
  rewrite (Hy sy my ey Hr eq_refl). apply binary_round_aux_sign.
Qed.

Lemma to_int_floor f :
  (∀ m e, f ≠ S754_finite true m e) →
  Float64.fits_int f = true → Float64.to_int f = Qfloor (Float64.to_Q f).
Proof.
  intros Hpos Hfit. unfold Float64.to_int. rewrite Hfit.
  destruct f as [s|s| |s m e]; try reflexivity.
  destruct s; [by destruct (Hpos m e)|]. apply truncate_floor.
Qed.

Lemma materialRates_lookup itemType rate :
  materialRates !! itemType = Some rate →
  (itemType = "plastic" ∧ rate = 10) ∨ (itemType = "glass" ∧ rate = 8) ∨
  (itemType = "metal" ∧ rate = 15) ∨ (itemType = "paper" ∧ rate = 5).
Proof.
  unfold materialRates. rewrite !lookup_insert, lookup_singleton.
  repeat case_decide; intros [= <-]; subst; tauto.
Qed.

Lemma CalculatePoints_known itemType weight rate :
  materialRates !! itemType = Some rate →
  CalculatePoints itemType weight = Float64.to_int (Float64.mul weight (Float64.of_int rate)).
Proof. intros H. unfold CalculatePoints. rewrite H. reflexivity. Qed.


(** *** Exact cases of binary64 arithmetic

    Rounding changes nothing when the result has at most 53 significant
    bits: integers below [2^53] convert exactly and multiply exactly. *)
Lemma iter_pos_shr_1_exact n m :
  0 ≤ m →
  SpecFloat.iter_pos shr_1 n {| shr_m := m * 2 ^ Zpos n; shr_r := false; shr_s := false |}
  = {| shr_m := m; shr_r := false; shr_s := false |}.
Proof.
  assert (∀ m, 0 ≤ m →
            shr_1 {| shr_m := m * 2; shr_r := false; shr_s := false |}
            = {| shr_m := m; shr_r := false; shr_s := false |}) as Hone.
  { intros [|q|q] H; try lia; [done|].
    by replace (Z.pos q * 2) with (Z.pos q~0) by lia. }
  revert m. induction n as [n IH|n IH|]; intros m Hm; cbn [SpecFloat.iter_pos].
  - replace (m * 2 ^ Z.pos n~1) with (m * 2 ^ Z.pos n * 2 ^ Z.pos n * 2).
    + rewrite Hone by nia. rewrite IH by nia. by apply IH.
    + replace (Z.pos n~1) with (Z.pos n + Z.pos n + 1) by lia.
      rewrite !Z.pow_add_r, Z.pow_1_r by lia. ring.
  - replace (m * 2 ^ Z.pos n~0) with (m * 2 ^ Z.pos n * 2 ^ Z.pos n).
    + rewrite IH by nia. by apply IH.
    + replace (Z.pos n~0) with (Z.pos n + Z.pos n) by lia.
      rewrite !Z.pow_add_r by lia. ring.
  - rewrite Z.pow_1_r. by apply Hone.
Qed.

Lemma digits2_pos_bounds q :
  2 ^ (Zpos (digits2_pos q) - 1) ≤ Zpos q < 2 ^ Zpos (digits2_pos q).
Proof.
  induction q as [q IH|q IH|]; cbn [digits2_pos]; [| |by vm_compute].
  all: rewrite Pos2Z.inj_succ.
  all: replace (Z.succ (Z.pos (digits2_pos q)) - 1) with (Z.pos (digits2_pos q) - 1 + 1) by lia.
  all: unfold Z.succ; rewrite !Z.pow_add_r, Z.pow_1_r by lia; lia.
Qed.

Lemma digits2_pos_unique q d :
  2 ^ (d - 1) ≤ Zpos q < 2 ^ d → Zpos (digits2_pos q) = d.
Proof.
  intros [Hlo Hhi]. pose proof (digits2_pos_bounds q) as [Hlo' Hhi'].
  assert (0 < d).
  { destruct d as [|p|p]; [simpl in Hhi; lia | lia |].
    rewrite Z.pow_neg_r in Hhi by lia. lia. }
  assert (d - 1 < Zpos (digits2_pos q)).
  { apply (Z.pow_lt_mono_r_iff 2); lia. }
  assert (Zpos (digits2_pos q) - 1 < d).
  { apply (Z.pow_lt_mono_r_iff 2); lia. }
  lia.
Qed.

Lemma binary_round_aux_exact s K n E :
  2 ^ 52 ≤ Zpos K < 2 ^ 53 → 0 ≤ n → -1074 ≤ E + n ≤ 971 →
  binary_round_aux Float64.prec Float64.emax s (Zpos K * 2 ^ n) E loc_Exact
  = S754_finite s K (E + n).
Proof.
  intros HK Hn HE.
  assert (Zpos (digits2_pos K) = 53) as HdK by by apply digits2_pos_unique.
  assert (∃ M, Zpos K * 2 ^ n = Zpos M ∧ Zpos (digits2_pos M) = 53 + n) as (M & HM & HdM).
  { assert (0 < Zpos K * 2 ^ n) as Hpos by (apply Z.mul_pos_pos; [lia | by apply Z.pow_pos_nonneg]).
    destruct (Zpos K * 2 ^ n) as [|M|M] eqn:EM; try lia.
    exists M. split; [done|]. apply digits2_pos_unique.
    rewrite <- EM. replace (53 + n - 1) with (52 + n) by lia.
    rewrite !Z.pow_add_r by lia.
    assert (0 < 2 ^ n) by by apply Z.pow_pos_nonneg. nia. }
  unfold binary_round_aux.
  assert (shr_fexp Float64.prec Float64.emax (Zpos K * 2 ^ n) E loc_Exact
          = ({| shr_m := Zpos K; shr_r := false; shr_s := false |}, E + n)) as ->.
  { unfold shr_fexp, fexp, emin, Float64.prec, Float64.emax. rewrite HM. 
    cbn [Zdigits2 shr_record_of_loc]. rewrite HdM.
    replace (Z.max (53 + n + E - 53) (3 - 1024 - 53) - E) with n by lia.
    unfold shr. destruct n as [|p|p]; try lia.
    - rewrite Z.pow_0_r, Z.mul_1_r in HM. injection HM as <-. by rewrite Z.add_0_r.
    - rewrite <- HM. by rewrite iter_pos_shr_1_exact. }
  cbn [shr_m loc_of_shr_record round_nearest_even].
  assert (shr_fexp Float64.prec Float64.emax (Zpos K) (E + n) loc_Exact
          = ({| shr_m := Zpos K; shr_r := false; shr_s := false |}, E + n)) as ->.
  { unfold shr_fexp, fexp, emin, Float64.prec, Float64.emax.
    cbn [Zdigits2 shr_record_of_loc]. rewrite HdK.
    replace (Z.max (53 + (E + n) - 53) (3 - 1024 - 53) - (E + n)) with 0 by lia.
    done. }
  cbn [shr_m]. unfold Float64.prec, Float64.emax.
  by rewrite (proj2 (Z.leb_le _ _)) by lia.
Qed.

Lemma Zpos_iter_xO q k : Zpos (Pos.iter xO q k) = Zpos q * 2 ^ Zpos k.
Proof.
  rewrite (Pos.iter_swap_gen _ _ Zpos xO (Z.mul 2)) by done.
  change (Pos.iter (Z.mul 2) (Z.pos q) k) with (Z.shiftl (Z.pos q) (Z.pos k)).
  by rewrite Z.shiftl_mul_pow2.
Qed.

(** An integer below [2^53] converts to the float of that value, with a
    mantissa of 53 bits. *)
Lemma of_int_exact p :
  0 < p < 2 ^ 53 →
  ∃ K e, Float64.of_int p = S754_finite false K e ∧
         2 ^ 52 ≤ Zpos K < 2 ^ 53 ∧ -52 ≤ e ≤ 0 ∧ Zpos K = p * 2 ^ (- e).
Proof.
  intros [Hpos Hlt]. destruct p as [|q|q]; try lia.
  pose proof (digits2_pos_bounds q) as [Hlo Hhi].
  set (d := Zpos (digits2_pos q)) in *.
  assert (d ≤ 53) as Hd.
  { assert (d - 1 < 53); [|lia]. apply (Z.pow_lt_mono_r_iff 2); lia. }
  unfold Float64.of_int, binary_normalize, binary_round.
  fold d. unfold fexp, emin, Float64.prec, Float64.emax.
  replace (Z.max (d + 0 - 53) (3 - 1024 - 53)) with (d - 53) by lia.
  unfold shl_align. destruct (d - 53 - 0) as [|k|k] eqn:Ek; try lia.
  - exists q, 0. assert (d = 53) as Hd53 by lia. rewrite Hd53 in *.
    change (53 - 1) with 52 in Hlo.
    pose proof (binary_round_aux_exact false q 0 0) as Hex.
    unfold Float64.prec, Float64.emax in Hex.
    rewrite Z.pow_0_r, Z.mul_1_r in Hex. rewrite Hex by lia.
    repeat split; try done; try lia.
  - exists (Pos.iter xO q k), (d - 53).
    assert (Zpos (Pos.iter xO q k) = Zpos q * 2 ^ (53 - d)) as HK.
    { rewrite Zpos_iter_xO. do 2 f_equal. lia. }
    assert (2 ^ 52 ≤ Zpos (Pos.iter xO q k) < 2 ^ 53) as Hb.
    { assert (0 < 2 ^ (53 - d)) by (apply Z.pow_pos_nonneg; lia).
      assert (2 ^ 52 = 2 ^ (d - 1) * 2 ^ (53 - d)) as H52
        by (rewrite <- Z.pow_add_r by lia; f_equal; lia).
      assert (2 ^ 53 = 2 ^ d * 2 ^ (53 - d)) as H53
        by (rewrite <- Z.pow_add_r by lia; f_equal; lia).
      rewrite HK. split.
      - rewrite H52. apply Z.mul_le_mono_nonneg_r; lia.
      - rewrite H53. apply Z.mul_lt_mono_pos_r; lia. }
    pose proof (binary_round_aux_exact false (Pos.iter xO q k) 0 (d - 53)) as Hex.
    unfold Float64.prec, Float64.emax in Hex.
    rewrite Z.pow_0_r, Z.mul_1_r, Z.add_0_r in Hex. rewrite Hex by lia.
    repeat split; try done; try lia.
    rewrite HK. do 2 f_equal. lia.
Qed.

(** The product of two integers is computed exactly as long as it stays
    below [2^53]. *)
Lemma mul_of_int_exact a b :
  0 < a → 0 < b → a * b < 2 ^ 53 →
  Float64.mul (Float64.of_int a) (Float64.of_int b) = Float64.of_int (a * b).
Proof.
  intros Ha Hb Hab.
  destruct (of_int_exact a) as (Ka & ea & -> & HKa & Hea & Hva); [nia|].
  destruct (of_int_exact b) as (Kb & eb & -> & HKb & Heb & Hvb); [nia|].
  destruct (of_int_exact (a * b)) as (K & e & -> & HK & He & Hv); [nia|].
  unfold Float64.mul, SFmul. cbn [xorb].
  assert (0 < 2 ^ (- ea) ∧ 0 < 2 ^ (- eb) ∧ 0 < 2 ^ (- e)) as (Hpa & Hpb & Hpe)
    by (repeat split; apply Z.pow_pos_nonneg; lia).
  assert (Zpos (Ka * Kb) = a * b * 2 ^ (- ea - eb)) as HM.
  { rewrite Pos2Z.inj_mul, Hva, Hvb.
    replace (- ea - eb) with (- ea + - eb) by lia. rewrite Z.pow_add_r by lia. ring. }
  assert (- e ≤ - ea - eb) as Hn.
  { destruct (Z_le_gt_dec (- e) (- ea - eb)); [done|].
    assert (2 ^ (- ea - eb + 1) ≤ 2 ^ (- e)) by (apply Z.pow_le_mono_r; lia).
    rewrite Z.pow_add_r, Z.pow_1_r in * by lia.
    assert (2 ^ 104 ≤ Zpos (Ka * Kb)) by (rewrite Pos2Z.inj_mul; change (2 ^ 104) with (2 ^ 52 * 2 ^ 52); nia).
    assert (Zpos K < 2 ^ 53) by lia. 
    assert (0 < a * b) by nia.
    assert (2 * Zpos (Ka * Kb) ≤ Zpos K); [|lia]. rewrite HM, Hv. nia. }
  assert (Zpos (Ka * Kb) = Zpos K * 2 ^ (- ea - eb - - e)) as HMK.
  { rewrite HM, Hv. replace (- ea - eb) with (- e + (- ea - eb - - e)) at 1 by lia.
    rewrite Z.pow_add_r by lia. ring. }
  rewrite HMK. rewrite binary_round_aux_exact by lia. f_equal. lia.
Qed.


Lemma to_int_of_int z : 0 < z < 2 ^ 53 → Float64.to_int (Float64.of_int z) = z.
Proof.
  intros Hz. destruct (of_int_exact z Hz) as (K & e & -> & HK & He & Hv).
  assert (Float64.truncate (S754_finite false K e) = z) as Ht.
  { cbn [Float64.truncate cond_Zopp]. rewrite Z.shiftl_div_pow2 by lia.
    rewrite Hv. apply Z.div_mul. apply Z.pow_nonzero; lia. }
  unfold Float64.to_int, Float64.fits_int. rewrite Ht.
  unfold Float64.int_min, Float64.int_max.
  rewrite (proj2 (Z.leb_le _ _)), (proj2 (Z.leb_le _ _)) by lia. done.
Qed.

(** A whole number of kilograms earns exactly weight times rate. *)
Lemma CalculatePoints_whole_kg itemType rate kg :
  materialRates !! itemType = Some rate → 0 < kg → kg * rate < 2 ^ 53 →
  CalculatePoints itemType (Float64.of_int kg) = kg * rate.
Proof.
  intros Hrate Hkg Hlt. rewrite (CalculatePoints_known _ _ _ Hrate).
  assert (0 < rate) by (apply materialRates_lookup in Hrate; lia).
  rewrite mul_of_int_exact by lia. apply to_int_of_int. nia.
Qed.

(** The points a successful earn reports are those of CalculatePoints. *)
Lemma earn_reply_points now flt userID itemType weight token db :
  let direct := {| DepositRequest.ItemType := itemType; DepositRequest.Weight := weight |} in
  let sessioned := {| SessionDepositRequest.Material := itemType;
                      SessionDepositRequest.Weight := weight;
                      SessionDepositRequest.SessionToken := token |} in
  (Success (createTransaction flt userID direct db).2 = true →
   field "points_earned" (createTransaction flt userID direct db).2
   = Some (JInt (CalculatePoints itemType weight))) ∧
  (Success (processDeposit now flt userID direct db).2 = true →
   field "points_earned" (processDeposit now flt userID direct db).2
   = Some (JInt (CalculatePoints itemType weight))) ∧
  (Success (deposit flt userID sessioned db).2 = true →
   field "pointsEarned" (deposit flt userID sessioned db).2
   = Some (JInt (CalculatePoints itemType weight))).
Proof.
  simpl. repeat split.
  - unfold createTransaction. tx_unfold.
    repeat (case_match; simpl in *; simplify_eq); done.
  - unfold processDeposit. tx_unfold.
    repeat (case_match; simpl in *; simplify_eq); done.
  - unfold deposit. tx_unfold.
    repeat (case_match; simpl in *; simplify_eq); done.
Qed.

(** C3 (amended).  For a material of the rate table and a weight above zero
    whose product with the rate is below [2^63], the points of
    CalculatePoints, which every successful earn awards, are the floor of that
    product as binary64 arithmetic computes it (the product rounded to the
    nearest float): the fraction is cut off, not rounded.  At 10 points per kg,
    1.5 kg gives 15 points and 0.33 kg gives 3; at 15 points per kg, 8.2 kg
    gives 122. *)
Theorem CalculatePoints_floor itemType weight rate :
  materialRates !! itemType = Some rate →
  Float64.ltb Float64.zero weight = true →
  Float64.fits_int (Float64.mul weight (Float64.of_int rate)) = true →
  let product := Float64.mul weight (Float64.of_int rate) in
  CalculatePoints itemType weight = Qfloor (Float64.to_Q product) ∧
  (∀ now flt userID token db,
     let direct := {| DepositRequest.ItemType := itemType; DepositRequest.Weight := weight |} in
     let sessioned := {| SessionDepositRequest.Material := itemType;
                         SessionDepositRequest.Weight := weight;
                         SessionDepositRequest.SessionToken := token |} in
     (Success (createTransaction flt userID direct db).2 = true →
      field "points_earned" (createTransaction flt userID direct db).2
      = Some (JInt (Qfloor (Float64.to_Q product)))) ∧
     (Success (processDeposit now flt userID direct db).2 = true →
      field "points_earned" (processDeposit now flt userID direct db).2
      = Some (JInt (Qfloor (Float64.to_Q product)))) ∧
     (Success (deposit flt userID sessioned db).2 = true →
      field "pointsEarned" (deposit flt userID sessioned db).2
      = Some (JInt (Qfloor (Float64.to_Q product))))) ∧
  materialRates !! "plastic" = Some 10 ∧
  CalculatePoints "plastic" (Float64.decimal 15 1) = 15 ∧
  CalculatePoints "plastic" (Float64.decimal 33 2) = 3 ∧
  CalculatePoints "metal" (Float64.decimal 82 1) = 122.
Proof.
  intros Hrate Hpos Hfit product.
  assert (CalculatePoints itemType weight = Qfloor (Float64.to_Q product)) as Hfloor.
  { rewrite (CalculatePoints_known _ _ _ Hrate).
    assert (0 < rate) as Hr.
    { apply materialRates_lookup in Hrate. lia. }
    apply to_int_floor; [|done].
    intros m e E. by apply mul_positive_sign in E. }
  split; [done|]. split; [|by vm_compute].
  intros now flt userID token db. simpl. rewrite <- Hfloor.
  apply (earn_reply_points now flt userID itemType weight token db).
Qed.

Lemma CalculatePoints_floor_witness :
  CalculatePoints "plastic" (Float64.decimal 33 2)
  = Qfloor (Float64.to_Q (Float64.mul (Float64.decimal 33 2) (Float64.of_int 10))).
Proof.
  apply (CalculatePoints_floor "plastic" (Float64.decimal 33 2) 10); by vm_compute.
Defined.

(** C3 as stated fails in two ways.  A product that does not fit Go's
    [int] is not its floor: for 1e18 kg of plastic the product is 1e19 and the
    conversion yields the least [int].  And the product is the rounded one:
    8.2 kg of metal is worth [8.2 * 15 = 123] points, but the binary64 nearest
    to 8.2 times 15.0 is 122.99999999999999, which is cut to 122. *)
Lemma CalculatePoints_not_the_floor :
  (materialRates !! "plastic" = Some 10 ∧
   Float64.ltb Float64.zero w_1e18 = true ∧
   Qfloor (inject_Z (10 ^ 18) * inject_Z 10) = 10 ^ 19 ∧
   CalculatePoints "plastic" w_1e18 = - 2 ^ 63 ∧
   CalculatePoints "plastic" w_1e18 ≠ Qfloor (inject_Z (10 ^ 18) * inject_Z 10)) ∧
  (materialRates !! "metal" = Some 15 ∧
   Float64.ltb Float64.zero (Float64.decimal 82 1) = true ∧
   Qfloor ((82 # 10) * inject_Z 15) = 123 ∧
   CalculatePoints "metal" (Float64.decimal 82 1) = 122 ∧
   CalculatePoints "metal" (Float64.decimal 82 1) ≠ Qfloor ((82 # 10) * inject_Z 15)).
Proof. by vm_compute. Qed.

(** ** The ledger *)

Lemma ledger_sum_snoc l e owner :
  ledger_sum (l ++ [e]) owner = ledger_sum l owner + entry_delta e owner.
Proof.
  unfold entry_delta. induction l as [|x l IH]; simpl.
  - case_decide; lia.
  - rewrite IH. repeat case_decide; lia.
Qed.

Lemma ledger_sum_absent l owner :
  (∀ e, e ∈ l → Transactions.user_id e ≠ owner) → ledger_sum l owner = 0.
Proof.
  induction l as [|x l IH]; intros H; simpl; [done|].
  rewrite IH by (intros e He; apply H; by right).
  case_decide as E; [|done]. destruct (H x); [by left | done].
Qed.

(** *** 64-bit integers in a column *)

Lemma int64_bounds i : Float64.int_min ≤ Sqlite.int64 i ≤ Float64.int_max.
Proof.
  unfold Sqlite.int64, Float64.int_min, Float64.int_max.
  pose proof (Z.mod_pos_bound (i - - 2 ^ 63) (2 ^ 64) ltac:(lia)). lia.
Qed.

Lemma in_int64_spec i :
  Sqlite.in_int64 i = true ↔ Float64.int_min ≤ i ≤ Float64.int_max.
Proof. unfold Sqlite.in_int64. rewrite andb_true_iff, Z.leb_le, Z.leb_le. tauto. Qed.

Lemma int64_id i : Sqlite.in_int64 i = true → Sqlite.int64 i = i.
Proof.
  intros H%in_int64_spec. unfold Sqlite.int64, Float64.int_min, Float64.int_max in *.
  rewrite Z.mod_small by lia. lia.
Qed.

Lemma moves_points_add p : moves_points p (Users.add_points p).
Proof. intros u i Hu Hin. unfold Users.add_points. simpl. by rewrite Hu; simpl; rewrite Hin. Qed.

Lemma moves_points_sub p : moves_points (- p) (Users.sub_points p).
Proof.
  intros u i Hu Hin. unfold Users.sub_points. simpl. rewrite Hu. simpl.
  rewrite Z.add_opp_r in Hin. by rewrite Hin, Z.add_opp_r.
Qed.

(** What a balance that is not zero tells about the row. *)
Lemma BalanceOf_nonzero db userID :
  BalanceOf db userID ≠ 0 →
  ∃ u i, users db !! userID = Some u ∧ Users.total_points u = Sqlite.Integer i ∧
         BalanceOf db userID = Sqlite.int64 i.
Proof.
  unfold BalanceOf. destruct (users db !! userID) as [u|]; [|done].
  destruct (Users.total_points u) as [|i|r] eqn:E; simpl; try done.
  intros _. by exists u, i.
Qed.

Lemma BalanceOf_alter_ne db upd userID owner :
  userID ≠ owner →
  BalanceOf (with_users (alter upd userID) db) owner = BalanceOf db owner.
Proof. intros Hne. unfold BalanceOf. simpl. by rewrite lookup_alter_ne. Qed.

Lemma BalanceOf_moved db upd delta userID u i :
  moves_points delta upd →
  users db !! userID = Some u → Users.total_points u = Sqlite.Integer i →
  Sqlite.in_int64 (Sqlite.int64 i + delta) = true →
  BalanceOf (with_users (alter upd userID) db) userID = BalanceOf db userID + delta.
Proof.
  intros Hupd Hu Hi Hin. unfold BalanceOf. simpl.
  rewrite lookup_alter_eq, Hu. simpl. rewrite (Hupd u i Hi Hin), Hi. simpl.
  by rewrite (int64_id _ Hin).
Qed.

Lemma never_overflowed_snoc l e owner :
  never_overflowed (l ++ [e]) owner →
  never_overflowed l owner ∧
  Sqlite.in_int64 (opening_balance owner + ledger_sum l owner) = true ∧
  Sqlite.in_int64 (opening_balance owner + ledger_sum (l ++ [e]) owner) = true.
Proof.
  intros H.
  assert (never_overflowed l owner) as Hl.
  { intros n. destruct (decide (n ≤ length l)%nat) as [Hn|Hn].
    - specialize (H n). by rewrite take_app_le in H.
    - specialize (H (length l)). rewrite take_app_le, take_ge in H by lia.
      by rewrite take_ge by lia. }
  split; [done|]. split.
  - specialize (Hl (length l)). by rewrite take_ge in Hl by lia.
  - specialize (H (length (l ++ [e]))). by rewrite take_ge in H by lia.
Qed.

Lemma handle_ledger_effect now flt rq db :
  ledger_effect (caller rq) db (handle now flt rq db).1.
Proof.
  destruct rq; simpl.
  - unfold register. repeat case_match; simpl; try by apply effect_none.
    eapply effect_register; simpl; [|done..]; done.
  - unfold requestSession. repeat case_match; by apply effect_none.
  - unfold checkSession. repeat case_match; by apply effect_none.
  - unfold connectSession. repeat case_match; by apply effect_none.
  - unfold endSession. repeat case_match; by apply effect_none.
  - unfold deposit. tx_unfold.
    repeat (case_match; simpl in *; simplify_eq); try by apply effect_none.
    eapply effect_entry; simpl; [| |reflexivity| | |]; simpl;
      [done|by apply Z.eqb_neq|reflexivity|apply moves_points_add|done].
  - unfold createTransaction. tx_unfold.
    repeat (case_match; simpl in *; simplify_eq); try by apply effect_none.
    eapply effect_entry; simpl; [| |reflexivity| | |]; simpl;
      [done|by apply Z.eqb_neq|reflexivity|apply moves_points_add|done].
  - unfold processDeposit. tx_unfold.
    repeat (case_match; simpl in *; simplify_eq); try by apply effect_none.
    eapply effect_entry; simpl; [| |reflexivity| | |]; simpl;
      [done|by apply Z.eqb_neq|reflexivity|apply moves_points_add|done].
  - unfold redeemPoints. tx_unfold.
    repeat (case_match; simpl in *; simplify_eq); try by apply effect_none.
    eapply effect_entry; simpl; [| |reflexivity| | |]; simpl;
      [done| |reflexivity|apply moves_points_sub|done].
    match goal with H : (_ <=? 0) = false |- _ => apply Z.leb_gt in H end. lia.
Qed.

(** The ledger writers are all or nothing: a failure reply, whichever
    storage statement caused it, comes with the database as it was. *)
Lemma ledger_writers_all_or_nothing now flt rq db :
  is_Some (caller rq) → Success (handle now flt rq db).2 = false →
  (handle now flt rq db).1 = db.
Proof.
  destruct rq; simpl; intros [u Hu]; try discriminate Hu.
  - unfold deposit. tx_unfold. repeat (case_match; simpl in *; simplify_eq); done.
  - unfold createTransaction. tx_unfold.
    repeat (case_match; simpl in *; simplify_eq); done.
  - unfold processDeposit. tx_unfold.
    repeat (case_match; simpl in *; simplify_eq); done.
  - unfold redeemPoints. tx_unfold.
    repeat (case_match; simpl in *; simplify_eq); done.
Qed.

Lemma ledger_inv_empty : ledger_inv empty_db.
Proof.
  split; simpl.
  - intros userID u H. by rewrite lookup_empty in H.
  - intros e H. by apply elem_of_nil in H.
  - intros userID [u H]. by rewrite lookup_empty in H.
Qed.

Lemma insert_or_ignore_user_inv userID u db :
  Users.total_points u = Sqlite.Integer (opening_balance userID) →
  ledger_inv db → ledger_inv (insert_or_ignore_user userID u db).
Proof.
  intros Hu [Hbal Hown Hseq]. unfold insert_or_ignore_user.
  case_decide as Hdec; [by split|].
  assert (users db !! userID = None) as Hfresh.
  { destruct (users db !! userID) eqn:E; [|done]. destruct Hdec. left. by eexists. }
  split; simpl.
  - intros uid' u'. rewrite lookup_insert. case_decide as E.
    + intros [= <-] _. subst uid'. rewrite Hu, ledger_sum_absent; [f_equal; lia|].
      intros e He Heq. apply Hown in He. rewrite Heq, Hfresh in He. by destruct He.
    + apply Hbal.
  - intros e He. rewrite lookup_insert. case_decide; [by eexists|]. by apply Hown.
  - intros uid'. rewrite lookup_insert. case_decide as E.
    + subst. lia.
    + intros H. apply Hseq in H. lia.
Qed.

Lemma InitDB_inv db : ledger_inv db → ledger_inv (InitDB db).
Proof.
  intros H. unfold InitDB.
  apply insert_or_ignore_user_inv; [done|]. by apply insert_or_ignore_user_inv.
Qed.

Lemma InitDB_seeded db : seeded db → InitDB db = db.
Proof.
  intros [H1 H2]. unfold InitDB.
  assert (insert_or_ignore_user 1 dummy_user db = db) as ->.
  { unfold insert_or_ignore_user. case_decide as E; [done|]. destruct E. by left. }
  unfold insert_or_ignore_user. case_decide as E; [done|]. destruct E. by left.
Qed.

Lemma seeded_init : seeded (InitDB empty_db).
Proof. split; vm_compute; by eexists. Qed.

Lemma ledger_effect_seeded who db db' :
  ledger_effect who db db' → seeded db → seeded db'.
Proof.
  intros Heff [H1 H2].
  destruct Heff as [Hu _ _|e upd _ _ _ Hu _ _|u _ Hu _ _]; unfold seeded; rewrite Hu.
  - done.
  - rewrite !lookup_alter.
    split; (case_decide as E; [rewrite E, fmap_is_Some|]; done).
  - split; rewrite lookup_insert; case_decide; done || by eexists.
Qed.

Lemma ledger_effect_inv who db db' :
  (∀ userID, who = Some userID → is_Some (users db !! userID)) →
  ledger_effect who db db' → seeded db → ledger_inv db → ledger_inv db'.
Proof.
  intros Hwho Heff [_ Hseed] [Hbal Hown Hseq].
  destruct Heff as [Hu Hs Ht|e upd Hw _ Ht Hu Hupd Hs|u Hz Hu Hs Ht].
  - split; rewrite ?Hu, ?Hs, ?Ht; done.
  - split; rewrite ?Hu, ?Hs, ?Ht; simpl.
    + intros uid u' Hlook (Hprev & Hin & Hin')%never_overflowed_snoc.
      rewrite ledger_sum_snoc in *. unfold entry_delta in *.
      rewrite lookup_alter in Hlook. case_decide as E.
      * subst uid. destruct (users db !! Transactions.user_id e) as [u0|] eqn:E0; [|done].
        injection Hlook as <-. rewrite ?decide_True in * by done.
        pose proof (Hbal _ _ E0 Hprev) as Hu0.
        rewrite (Hupd u0 _ Hu0); rewrite (int64_id _ Hin); [f_equal; lia|].
        by rewrite Z.add_assoc in Hin'.
      * rewrite ?decide_False in * by done. rewrite (Hbal _ _ Hlook Hprev). f_equal. lia.
    + intros e' He'. rewrite lookup_alter. apply elem_of_app in He' as [He'|He'].
      * case_decide as E; [rewrite E; apply fmap_is_Some|]; by apply Hown.
      * apply list_elem_of_singleton in He' as ->.
        rewrite decide_True by done. apply fmap_is_Some. by apply Hwho.
    + intros uid. rewrite lookup_alter. case_decide as E.
      * subst. rewrite fmap_is_Some. apply Hseq.
      * apply Hseq.
  - assert (users db !! (users_seq db + 1) = None) as Hfresh.
    { destruct (users db !! (users_seq db + 1)) eqn:E; [|done].
      assert (users_seq db + 1 ≤ users_seq db) by (apply Hseq; by eexists). lia. }
    assert (2 ≤ users_seq db) as Hge by by apply Hseq.
    split; rewrite ?Hu, ?Hs, ?Ht.
    + intros uid u'. rewrite lookup_insert. case_decide as E.
      * intros [= <-] _. subst uid. rewrite Hz. unfold opening_balance.
        rewrite !decide_False by lia. rewrite ledger_sum_absent; [done|].
        intros e He Heq. apply Hown in He. rewrite Heq, Hfresh in He. by destruct He.
      * apply Hbal.
    + intros e He. rewrite lookup_insert. case_decide; [by eexists|]. by apply Hown.
    + intros uid. rewrite lookup_insert. case_decide as E.
      * subst. lia.
      * intros H. apply Hseq in H. lia.
Qed.

Lemma authenticated_caller db rq userID :
  authenticated db rq → caller rq = Some userID → is_Some (users db !! userID).
Proof. destruct rq; simpl; intros H [= <-]; done. Qed.

Lemma reachable_inv db : reachable db → seeded db ∧ ledger_inv db.
Proof.
  induction 1 as [|db _ [Hs Hi]|db now flt rq _ [Hs Hi] Hauth].
  - split; [apply seeded_init | apply InitDB_inv, ledger_inv_empty].
  - by rewrite InitDB_seeded.
  - pose proof (handle_ledger_effect now flt rq db) as Heff. split.
    + by eapply ledger_effect_seeded.
    + eapply ledger_effect_inv; [|done..]. intros. by eapply authenticated_caller.
Qed.

Lemma BalanceOf_users db db' owner :
  users db' = users db → BalanceOf db' owner = BalanceOf db owner.
Proof. unfold BalanceOf. by intros ->. Qed.

Lemma ledger_effect_balance who db db' :
  (∀ userID, who = Some userID → is_Some (users db !! userID)) →
  ledger_inv db → ledger_effect who db db' →
  (transactions db' = transactions db ∧
   ∀ owner, BalanceOf db' owner = BalanceOf db owner) ∨
  (∃ e, transactions db' = transactions db ++ [e] ∧
        ∀ owner, never_overflowed (transactions db') owner →
                 BalanceOf db' owner = BalanceOf db owner + entry_delta e owner).
Proof.
  intros Hwho Hinv [Hu _ Ht|e upd Hw _ Ht Hu Hupd _|u Hz Hu _ Ht].
  - left. split; [done|]. intros. by apply BalanceOf_users.
  - right. exists e. split; [done|]. intros owner. rewrite Ht.
    intros (Hprev & Hin & Hin')%never_overflowed_snoc.
    rewrite ledger_sum_snoc in Hin'. unfold entry_delta in *.
    transitivity (BalanceOf (with_users (alter upd (Transactions.user_id e)) db) owner);
      [by apply BalanceOf_users|].
    case_decide as E.
    + subst owner. destruct (Hwho _ Hw) as [u0 Hu0].
      pose proof (inv_balance _ Hinv _ _ Hu0 Hprev) as Hi.
      apply (BalanceOf_moved _ _ _ _ u0 _ Hupd Hu0 Hi).
      rewrite (int64_id _ Hin). by rewrite Z.add_assoc in Hin'.
    + rewrite BalanceOf_alter_ne by done. lia.
  - left. split; [done|]. intros owner. unfold BalanceOf. rewrite Hu, lookup_insert.
    case_decide as E; [|done]. subst owner. rewrite Hz. simpl.
    destruct (users db !! (users_seq db + 1)) eqn:E; [|done].
    assert (users_seq db + 1 ≤ users_seq db) by (apply (inv_seq _ Hinv); by eexists). lia.
Qed.

(** A balance that never overflowed is the opening balance plus the
    ledger. *)
Lemma reachable_balance db owner :
  reachable db → never_overflowed (transactions db) owner →
  BalanceOf db owner = opening_balance owner + ledger_sum (transactions db) owner.
Proof.
  intros Hreach Hno. destruct (reachable_inv _ Hreach) as [[Hs1 Hs2] Hinv].
  unfold BalanceOf. destruct (users db !! owner) as [u|] eqn:E.
  - rewrite (inv_balance _ Hinv _ _ E Hno). simpl. apply int64_id.
    specialize (Hno (length (transactions db))). by rewrite take_ge in Hno by lia.
  - unfold opening_balance.
    rewrite !decide_False by (intros ->; rewrite E in *; by destruct Hs1 || by destruct Hs2).
    rewrite ledger_sum_absent; [done|].
    intros e He Heq. apply (inv_owners _ Hinv) in He. rewrite Heq, E in He. by destruct He.
Qed.

(** C1 (amended).  In every state reachable through the public operations
    the stored balance of an owner whose running total has never left the
    64-bit integers equals the balance the account was opened with (1000 and
    2500 for the two seeded accounts, 0 otherwise) plus the sum of the deltas
    of the owner's ledger entries; and every operation, whatever storage
    statement fails, either writes no entry and changes no balance, or appends
    one entry and moves its owner's balance by that entry's delta, again as
    long as the owner's running total stays a 64-bit integer (past that,
    SQLite turns the column into a REAL, which reads back as 0:
    [balance_projection_overflow]). *)
Theorem balance_projection_invariant db :
  reachable db →
  (∀ owner, never_overflowed (transactions db) owner →
     BalanceOf db owner = opening_balance owner + ledger_sum (transactions db) owner) ∧
  (∀ now flt rq, authenticated db rq →
     let db' := (handle now flt rq db).1 in
     (transactions db' = transactions db ∧
      ∀ owner, BalanceOf db' owner = BalanceOf db owner) ∨
     (∃ e, transactions db' = transactions db ++ [e] ∧
           ∀ owner, never_overflowed (transactions db') owner →
                    BalanceOf db' owner = BalanceOf db owner + entry_delta e owner)).
Proof.
  intros Hreach. split.
  - intros owner. by apply reachable_balance.
  - intros now flt rq Hauth. simpl. destruct (reachable_inv _ Hreach) as [_ Hinv].
    eapply ledger_effect_balance; [|done|apply handle_ledger_effect].
    intros. by eapply authenticated_caller.
Qed.

Lemma balance_projection_invariant_witness :
  BalanceOf (createTransaction no_faults 1 plastic_1kg (InitDB empty_db)).1 1
  = opening_balance 1
    + ledger_sum (transactions (createTransaction no_faults 1 plastic_1kg (InitDB empty_db)).1) 1.
Proof.
  apply (balance_projection_invariant
           (handle 0 no_faults (CreateTransaction 1 plastic_1kg) (InitDB empty_db)).1).
  - apply reachable_step; [apply reachable_init | vm_compute; by eexists].
  - intros [|[|n]]; by vm_compute.
Defined.

(** C1 as stated fails in the initial state: InitDB seeds account 1 with
    1000 points and no ledger entry. *)
Lemma balance_projection_initial_state :
  reachable (InitDB empty_db) ∧
  BalanceOf (InitDB empty_db) 1 = 1000 ∧
  ledger_sum (transactions (InitDB empty_db)) 1 = 0 ∧
  BalanceOf (InitDB empty_db) 1 ≠ ledger_sum (transactions (InitDB empty_db)) 1.
Proof. split; [apply reachable_init|]. by vm_compute. Qed.

(** Past the 64-bit range the proviso of C1 is needed: the second of two
    deposits of 9e18 points takes the running total of account 1 to
    18000000000000001000; SQLite computes the sum in floating point, the
    column is the REAL 1.8e19 from then on, and the balance that the handlers
    read, and report, is 0. *)
Lemma balance_projection_overflow :
  reachable db_overflowed ∧
  BalanceOf db_9e18 1 = 9000000000000001000 ∧
  Users.total_points <$> users db_overflowed !! 1
  = Some (Sqlite.Real (Float64.of_int (18 * 10 ^ 18))) ∧
  ledger_sum (transactions db_overflowed) 1 = 18 * 10 ^ 18 ∧
  ¬ never_overflowed (transactions db_overflowed) 1 ∧
  BalanceOf db_overflowed 1 = 0 ∧
  Status (handle 0 no_faults (CreateTransaction 1 plastic_9e17kg) db_9e18).2
  = StatusCreated ∧
  field "total_points" (handle 0 no_faults (CreateTransaction 1 plastic_9e17kg) db_9e18).2
  = Some (JInt 0).
Proof.
  split; [|split; [|split; [|split; [|split; [|split; [|split]]]]]].
  - apply reachable_step; [|vm_compute; by eexists].
    apply reachable_step; [|vm_compute; by eexists].
    apply reachable_init.
  - vm_compute. reflexivity.
  - vm_compute. reflexivity.
  - vm_compute. reflexivity.
  - intros H. specialize (H 2%nat). vm_compute in H. discriminate H.
  - vm_compute. reflexivity.
  - vm_compute. reflexivity.
  - vm_compute. reflexivity.
Qed.

(** ** Redemption *)



(** ** Pairing sessions *)

Lemma handle_keeps_bound_user now flt rq db tok s u :
  station_sessions db !! tok = Some s → StationSessions.user_id s = Some u →
  ∃ s', station_sessions (handle now flt rq db).1 !! tok = Some s' ∧
        StationSessions.user_id s' = Some u.
Proof.
  intros Hs Hu.
  assert (∀ t f, (∀ x, StationSessions.user_id (f x) = StationSessions.user_id x) →
            ∃ s', alter f t (station_sessions db) !! tok = Some s' ∧
                  StationSessions.user_id s' = Some u) as Halter.
  { intros t f Hf. rewrite lookup_alter. case_decide as E.
    - subst t. rewrite Hs. simpl. eexists. split; [done|]. by rewrite Hf.
    - by eexists. }
  destruct rq; simpl.
  - unfold register. repeat case_match; simpl; by eexists.
  - unfold requestSession. repeat case_match; simpl; try by eexists.
    all: rewrite lookup_insert; case_decide as E; [subst|by eexists].
    all: match goal with H : _ || bool_decide _ = false |- _ =>
           apply orb_false_elim in H as [_ H]; apply bool_decide_eq_false in H;
           destruct H; by eexists end.
  - unfold checkSession. repeat case_match; simpl; try by eexists.
    by apply Halter.
  - unfold connectSession. repeat case_match; simpl; try by eexists.
    rewrite lookup_alter. case_decide as E; [|by eexists]. congruence.
  - unfold endSession. repeat case_match; simpl; try by eexists.
    by apply Halter.
  - unfold deposit. tx_unfold.
    repeat (case_match; simpl in *; simplify_eq); try by eexists.
    by apply Halter.
  - unfold createTransaction. tx_unfold.
    repeat (case_match; simpl in *; simplify_eq); by eexists.
  - unfold processDeposit. tx_unfold.
    repeat (case_match; simpl in *; simplify_eq); by eexists.
  - unfold redeemPoints. tx_unfold.
    repeat (case_match; simpl in *; simplify_eq); by eexists.
Qed.

Lemma run_keeps_bound_user calls db tok s u :
  station_sessions db !! tok = Some s → StationSessions.user_id s = Some u →
  ∃ s', station_sessions (run calls db) !! tok = Some s' ∧
        StationSessions.user_id s' = Some u.
Proof.
  revert db s. induction calls as [|[[now flt] rq] rest IH]; intros db s Hs Hu; simpl.
  - by eexists.
  - destruct (handle_keeps_bound_user now flt rq db tok s u Hs Hu) as (s' & Hs' & Hu').
    by eapply IH.
Qed.

(** C6 (amended).  Once a user is bound to a session, connectSession never
    succeeds on it again and leaves the database as it was, whatever the
    credential, and no sequence of public operations changes the bound user.
    The reply is settled by the first check that fails: 400 when one of the
    two tokens is missing; else 401 "Invalid auth token" when the credential
    does not verify; else 401 "Session has expired" when the deadline has
    passed; else, that is whenever the request carries both tokens, the
    credential verifies and the deadline has not passed, the conflict 409
    "Session is already connected to a user". *)
Theorem first_bind_wins verifyJWT now flt req db s u :
  station_sessions db !! ConnectSessionRequest.SessionToken req = Some s →
  StationSessions.user_id s = Some u →
  (connectSession verifyJWT now flt req db).1 = db ∧
  Success (connectSession verifyJWT now flt req db).2 = false ∧
  (ConnectSessionRequest.SessionToken req ≠ "" →
   ConnectSessionRequest.AuthToken req ≠ "" →
   is_Some (verifyJWT (ConnectSessionRequest.AuthToken req)) →
   now ≤ StationSessions.expires_at s →
   (connectSession verifyJWT now flt req db).2
   = respond_error StatusConflict "Session is already connected to a user") ∧
  (∀ calls,
     ∃ s', station_sessions (run calls db)
             !! ConnectSessionRequest.SessionToken req = Some s' ∧
           StationSessions.user_id s' = Some u) ∧
  (ConnectSessionRequest.SessionToken req ≠ "" →
   ConnectSessionRequest.AuthToken req ≠ "" →
   is_Some (verifyJWT (ConnectSessionRequest.AuthToken req)) →
   StationSessions.expires_at s < now →
   (connectSession verifyJWT now flt req db).2
   = respond_error StatusUnauthorized "Session has expired") ∧
  (ConnectSessionRequest.SessionToken req ≠ "" →
   ConnectSessionRequest.AuthToken req ≠ "" →
   verifyJWT (ConnectSessionRequest.AuthToken req) = None →
   (connectSession verifyJWT now flt req db).2
   = respond_error StatusUnauthorized "Invalid auth token") ∧
  (ConnectSessionRequest.SessionToken req = "" ∨
   ConnectSessionRequest.AuthToken req = "" →
   (connectSession verifyJWT now flt req db).2
   = respond_error StatusBadRequest "Session token and auth token are required").
Proof.
  intros Hs Hu. split; [|split; [|split; [|split; [|split; [|split]]]]].
  - unfold connectSession. rewrite Hs, Hu. by repeat case_match.
  - unfold connectSession. rewrite Hs, Hu. by repeat case_match.
  - intros Htok Hauth [caller Hjwt] Hnow. unfold connectSession.
    rewrite (proj2 (String.eqb_neq _ _) Htok), (proj2 (String.eqb_neq _ _) Hauth).
    simpl. rewrite Hjwt, Hs, Hu. by rewrite (proj2 (Z.ltb_ge _ _) Hnow).
  - intros. by eapply run_keeps_bound_user.
  - intros Htok Hauth [caller Hjwt] Hnow. unfold connectSession.
    rewrite (proj2 (String.eqb_neq _ _) Htok), (proj2 (String.eqb_neq _ _) Hauth).
    simpl. rewrite Hjwt, Hs. by rewrite (proj2 (Z.ltb_lt _ _) Hnow).
  - intros Htok Hauth Hjwt. unfold connectSession.
    rewrite (proj2 (String.eqb_neq _ _) Htok), (proj2 (String.eqb_neq _ _) Hauth).
    simpl. by rewrite Hjwt.
  - intros [Htok|Hauth]; unfold connectSession.
    + by rewrite Htok.
    + rewrite Hauth. by rewrite orb_true_r.
Qed.

Lemma first_bind_wins_witness :
  (connectSession sample_verifyJWT 1100 no_faults bind_A_user2 db_connected).2
  = respond_error StatusConflict "Session is already connected to a user".
Proof.
  exact (proj1 (proj2 (proj2
           (first_bind_wins sample_verifyJWT 1100 no_faults bind_A_user2 db_connected
              (StationSessions.set_connected 1 "jwt-1" "connected" session_A) 1
              ltac:(by vm_compute) ltac:(done))))
           ltac:(done) ltac:(done) ltac:(vm_compute; by eexists) ltac:(by vm_compute)).
Defined.

(** C6 as stated fails past the deadline: the expiry check comes first, so
    a second bind with another user's valid credential is answered "Session
    has expired" and not with the conflict. *)
Lemma second_bind_after_deadline :
  StationSessions.user_id <$> station_sessions db_connected !! "token-A" = Some (Some 1) ∧
  sample_verifyJWT (ConnectSessionRequest.AuthToken bind_A_user2) = Some 2 ∧
  connectSession sample_verifyJWT 2000 no_faults bind_A_user2 db_connected
  = (db_connected, respond_error StatusUnauthorized "Session has expired") ∧
  Status (connectSession sample_verifyJWT 2000 no_faults bind_A_user2 db_connected).2
  ≠ StatusConflict.
Proof. by vm_compute. Qed.

(** C7 (amended).  endSession on a session in any state, in particular
    pending, connected or active, sets its status to "expired" (the handler
    has no status "ended") and records the time of the call as the end time;
    the rest of the row is kept. *)
Theorem endSession_marks_expired now flt req db s :
  EndSessionRequest.SessionToken req ≠ "" → flt 0%nat = false →
  station_sessions db !! EndSessionRequest.SessionToken req = Some s →
  (endSession now flt req db).2 = respond_ok StatusOK "Session ended" [] ∧
  ∃ s', station_sessions (endSession now flt req db).1
          !! EndSessionRequest.SessionToken req = Some s' ∧
        StationSessions.status s' = "expired" ∧
        StationSessions.ended_at s' = Some now ∧
        StationSessions.user_id s' = StationSessions.user_id s ∧
        StationSessions.expires_at s' = StationSessions.expires_at s.
Proof.
  intros Htok Hflt Hs. unfold endSession.
  rewrite (proj2 (String.eqb_neq _ _) Htok), Hflt, Hs. simpl. split; [done|].
  rewrite lookup_alter, decide_True, Hs by done. simpl. by eexists.
Qed.

Lemma endSession_marks_expired_witness :
  ∃ s', station_sessions (endSession 1020 no_faults end_A db_active).1 !! "token-A" = Some s' ∧
        StationSessions.status s' = "expired" ∧ StationSessions.ended_at s' = Some 1020.
Proof.
  destruct (endSession_marks_expired 1020 no_faults end_A db_active
              (StationSessions.set_status "active" 
                 (StationSessions.set_connected 1 "jwt-1" "connected" session_A)))
    as (_ & s' & H1 & H2 & H3 & _); [by vm_compute..|].
  by exists s'.
Defined.

(** C7 as stated fails: ending a pending session leaves it with the status
    "expired", not "ended". *)
Lemma endSession_status_not_ended :
  StationSessions.status <$> station_sessions db_pending !! "token-A" = Some "pending" ∧
  StationSessions.status <$> station_sessions (endSession 1020 no_faults end_A db_pending).1
                               !! "token-A" = Some "expired" ∧
  StationSessions.status <$> station_sessions (endSession 1020 no_faults end_A db_pending).1
                               !! "token-A" ≠ Some "ended".
Proof. by vm_compute. Qed.

(** C8 (amended).  endSession on a session that is already ended or expired
    succeeds like any other call: it replies 200 "Session ended", keeps the
    status "expired" and overwrites the end time with the time of the call.
    The reply "Session not found" is given exactly for the tokens that no row
    carries. *)
Theorem endSession_again now flt req db s :
  EndSessionRequest.SessionToken req ≠ "" → flt 0%nat = false →
  station_sessions db !! EndSessionRequest.SessionToken req = Some s →
  StationSessions.status s = "expired" ∨ StationSessions.status s = "ended" →
  endSession now flt req db
  = (with_station_sessions
       (<[EndSessionRequest.SessionToken req := StationSessions.set_ended "expired" now s]>) db,
     respond_ok StatusOK "Session ended" []) ∧
  (∀ req', EndSessionRequest.SessionToken req' ≠ "" →
     (endSession now flt req' db).2 = respond_error StatusNotFound "Session not found"
     ↔ station_sessions db !! EndSessionRequest.SessionToken req' = None).
Proof.
  intros Htok Hflt Hs _. split.
  - unfold endSession.
    rewrite (proj2 (String.eqb_neq _ _) Htok), Hflt, Hs. f_equal.
    unfold with_station_sessions. f_equal.
    apply map_eq. intros t. rewrite lookup_alter, lookup_insert.
    case_decide; [by rewrite Hs | done].
  - intros req' Htok'. unfold endSession.
    rewrite (proj2 (String.eqb_neq _ _) Htok'), Hflt.
    destruct (station_sessions db !! EndSessionRequest.SessionToken req');
      simpl; split; intros H; (done || inversion H).
Qed.

Lemma endSession_again_witness :
  (endSession 1050 no_faults end_A db_ended).2 = respond_ok StatusOK "Session ended" [].
Proof.
  destruct (endSession_again 1050 no_faults end_A db_ended
              (StationSessions.set_ended "expired" 1020
                 (StationSessions.set_status "active" 
                    (StationSessions.set_connected 1 "jwt-1" "connected" session_A))))
    as [H _]; [by vm_compute..| by left |].
  by rewrite H.
Defined.

(** C8 as stated fails: a second End on an ended session is answered with
    success, not with not-found, and it changes the recorded end time. *)
Lemma endSession_twice_succeeds :
  StationSessions.status <$> station_sessions db_ended !! "token-A" = Some "expired" ∧
  StationSessions.ended_at <$> station_sessions db_ended !! "token-A" = Some (Some 1020) ∧
  (endSession 1050 no_faults end_A db_ended).2 = respond_ok StatusOK "Session ended" [] ∧
  Status (endSession 1050 no_faults end_A db_ended).2 ≠ StatusNotFound ∧
  StationSessions.ended_at <$> station_sessions (endSession 1050 no_faults end_A db_ended).1
                                 !! "token-A" = Some (Some 1050).
Proof. by vm_compute. Qed.

(** ** Session deposits *)

Lemma deposit_input_valid_check req :
  deposit_input_valid req →
  String.eqb (SessionDepositRequest.Material req) ""
  || Float64.leb (SessionDepositRequest.Weight req) Float64.zero
  || String.eqb (SessionDepositRequest.SessionToken req) "" = false.
Proof.
  intros (Hm & Hw & Ht).
  by rewrite (proj2 (String.eqb_neq _ _) Hm), Hw, (proj2 (String.eqb_neq _ _) Ht).
Qed.

Lemma deposit_input_invalid_check req :
  ¬ deposit_input_valid req →
  String.eqb (SessionDepositRequest.Material req) ""
  || Float64.leb (SessionDepositRequest.Weight req) Float64.zero
  || String.eqb (SessionDepositRequest.SessionToken req) "" = true.
Proof.
  intros Hn. unfold deposit_input_valid in Hn.
  destruct (String.eqb_spec (SessionDepositRequest.Material req) ""); [done|].
  destruct (Float64.leb _ _); [done|].
  destruct (String.eqb_spec (SessionDepositRequest.SessionToken req) ""); [done|].
  by destruct Hn.
Qed.

(** C9 (amended).  A deposit on a session whose bound user is not the
    caller, or that has no bound user, never succeeds and leaves the whole
    database, ledger and balances included, as it was.  The reply is 403
    "Session not linked to this user" when the request passes the input
    validation that comes first (material and token not empty, weight above
    zero), and the 400 of that validation otherwise. *)
Theorem deposit_forbidden flt userID req db s :
  station_sessions db !! SessionDepositRequest.SessionToken req = Some s →
  StationSessions.user_id s ≠ Some userID →
  (deposit flt userID req db).1 = db ∧
  transactions (deposit flt userID req db).1 = transactions db ∧
  (∀ owner, BalanceOf (deposit flt userID req db).1 owner = BalanceOf db owner) ∧
  Success (deposit flt userID req db).2 = false ∧
  (deposit_input_valid req →
     (deposit flt userID req db).2
     = respond_error StatusForbidden "Session not linked to this user") ∧
  (¬ deposit_input_valid req →
     (deposit flt userID req db).2
     = respond_error StatusBadRequest "Material, weight, and session token are required").
Proof.
  intros Hs Hu.
  assert (bool_decide (StationSessions.user_id s ≠ Some userID) = true) as Hdec
    by by apply bool_decide_eq_true.
  unfold deposit. rewrite Hs, Hdec. repeat split.
  - by case_match.
  - by case_match.
  - by case_match.
  - by case_match.
  - intros Hv. by rewrite deposit_input_valid_check.
  - intros Hv. by rewrite deposit_input_invalid_check.
Qed.

Lemma deposit_forbidden_witness :
  deposit no_faults 2 metal_2kg_A db_connected
  = (db_connected, respond_error StatusForbidden "Session not linked to this user").
Proof.
  destruct (deposit_forbidden no_faults 2 metal_2kg_A db_connected
              (StationSessions.set_connected 1 "jwt-1" "connected" session_A))
    as (H1 & _ & _ & _ & H2 & _); [by vm_compute..|].
  rewrite <- H1 at 2. rewrite <- H2; [by destruct (deposit _ _ _ _) | by vm_compute].
Defined.

(** C9 as stated fails when the request is rejected earlier: a deposit of
    weight 0 by a caller who is not the bound user is answered with the 400 of
    the input validation, not with 403. *)
Lemma deposit_wrong_user_invalid_input :
  StationSessions.user_id <$> station_sessions db_connected !! "token-A" = Some (Some 1) ∧
  deposit no_faults 2 no_weight_A db_connected
  = (db_connected,
     respond_error StatusBadRequest "Material, weight, and session token are required") ∧
  Status (deposit no_faults 2 no_weight_A db_connected).2 ≠ StatusForbidden.
Proof. by vm_compute. Qed.

(** deposit reads the status of the session and never looks at it, nor at
    the deadline: a valid request of the bound user is accepted whatever they
    are, and sets the status to "active". *)
Lemma deposit_ignores_session_state flt userID req db s :
  deposit_input_valid req →
  station_sessions db !! SessionDepositRequest.SessionToken req = Some s →
  StationSessions.user_id s = Some userID →
  CalculatePoints (SessionDepositRequest.Material req) (SessionDepositRequest.Weight req) ≠ 0 →
  (∀ i, flt i = false) →
  Status (deposit flt userID req db).2 = StatusOK ∧
  StationSessions.status <$> station_sessions (deposit flt userID req db).1
                               !! SessionDepositRequest.SessionToken req = Some "active".
Proof.
  intros Hv Hs Hu Hp Hflt. unfold deposit.
  rewrite (deposit_input_valid_check _ Hv), Hs.
  rewrite bool_decide_eq_false_2 by (intros H; by apply H).
  rewrite (proj2 (Z.eqb_neq _ _) Hp). tx_unfold. rewrite !Hflt. simpl.
  split; [done|]. by rewrite lookup_alter, decide_True, Hs.
Qed.

(** C2: the code at the failing input.  After the scenario's session has
    been ended (status "expired"), and likewise after it has been polled past
    its deadline, a deposit by the bound user is accepted: it awards 30 points
    and sets the status to "active".  A session ended before anyone was bound
    is likewise taken out of "expired" by connectSession. *)
Theorem deposit_revives_terminal_session :
  (StationSessions.status <$> station_sessions db_ended !! "token-A" = Some "expired" ∧
   Status (deposit no_faults 1 metal_2kg_A db_ended).2 = StatusOK ∧
   field "pointsEarned" (deposit no_faults 1 metal_2kg_A db_ended).2 = Some (JInt 30) ∧
   StationSessions.status <$> station_sessions (deposit no_faults 1 metal_2kg_A db_ended).1
                                !! "token-A" = Some "active") ∧
  (StationSessions.status <$> station_sessions db_expired !! "token-A" = Some "expired" ∧
   Status (deposit no_faults 1 metal_2kg_A db_expired).2 = StatusOK ∧
   StationSessions.status <$> station_sessions (deposit no_faults 1 metal_2kg_A db_expired).1
                                !! "token-A" = Some "active") ∧
  (StationSessions.status <$> station_sessions db_ended_unbound !! "token-A" = Some "expired" ∧
   Status (connectSession sample_verifyJWT 1030 no_faults bind_A_user1 db_ended_unbound).2
   = StatusOK ∧
   StationSessions.status <$>
     station_sessions (connectSession sample_verifyJWT 1030 no_faults bind_A_user1
                         db_ended_unbound).1 !! "token-A" = Some "connected").
Proof. by vm_compute. Qed.

(** ** Deposits that earn nothing, and deposits of negative weight *)






(** The session path refuses a weight that is not above zero. *)
Lemma deposit_rejects_nonpositive_weight flt userID req db :
  Float64.leb (SessionDepositRequest.Weight req) Float64.zero = true →
  deposit flt userID req db
  = (db, respond_error StatusBadRequest "Material, weight, and session token are required").
Proof. intros Hw. unfold deposit. rewrite Hw. by rewrite orb_true_r. Qed.

(** C4: the code at the failing input.  The two direct paths have no check
    of the weight: -1 kg of plastic is recorded as an entry of -10 points and
    takes 10 points off the balance, where the session path answers 400. *)
Theorem direct_deposit_negative_weight :
  Float64.leb (DepositRequest.Weight plastic_minus_1kg) Float64.zero = true ∧
  (let '(db', r) := createTransaction no_faults 1 plastic_minus_1kg (InitDB empty_db) in
   Status r = StatusCreated ∧ field "points_earned" r = Some (JInt (-10)) ∧
   Transactions.points_earned <$> transactions db' = [-10] ∧
   BalanceOf (InitDB empty_db) 1 = 1000 ∧ BalanceOf db' 1 = 990) ∧
  (let '(db', r) := processDeposit 0 no_faults 1 plastic_minus_1kg (InitDB empty_db) in
   Status r = StatusCreated ∧ field "points_earned" r = Some (JInt (-10)) ∧
   Transactions.points_earned <$> transactions db' = [-10] ∧
   BalanceOf db' 1 = 990).
Proof. by vm_compute. Qed.

(** * Further properties of the handlers *)

(** ** What a call can do *)

Lemma handle_call_effect now flt rq db : call_effect now db (handle now flt rq db).1.
Proof.
  destruct rq; simpl.
  - unfold register. repeat case_match; simpl; try apply call_unchanged.
    apply call_registered.
    match goal with H : _ || bool_decide _ = false |- _ =>
      apply orb_false_elim in H as [_ H]; by apply bool_decide_eq_false in H end.
  - unfold requestSession. repeat case_match; simpl; try apply call_unchanged.
    all: apply call_session_created.
    all: match goal with H : _ || bool_decide _ = false |- _ =>
      apply orb_false_elim in H as [_ H]; apply bool_decide_eq_false in H end.
    all: by apply eq_None_not_Some.
  - unfold checkSession. repeat case_match; simpl; try apply call_unchanged.
    eapply call_session_expired; [done|]. by apply Z.ltb_lt.
  - unfold connectSession. repeat case_match; simpl; try apply call_unchanged.
    eapply call_session_connected; try done.
    + by apply Z.ltb_ge.
    + match goal with H : _ || _ = false |- _ =>
        apply orb_false_elim in H as [_ H]; by apply String.eqb_neq in H end.
  - unfold endSession. repeat case_match; simpl; try apply call_unchanged.
    by eapply call_session_ended.
  - unfold deposit. tx_unfold.
    repeat (case_match; simpl in *; simplify_eq); try apply call_unchanged.
    eapply call_session_deposit; try done.
    + match goal with H : bool_decide (_ ≠ _) = false |- _ =>
        apply bool_decide_eq_false in H; by destruct (decide (StationSessions.user_id r = Some userID)) end.
    + by apply Z.eqb_neq.
  - unfold createTransaction. tx_unfold.
    repeat (case_match; simpl in *; simplify_eq); try apply call_unchanged.
    apply (call_direct_deposit _ _ userID (DepositRequest.ItemType req) (DepositRequest.Weight req)).
    by apply Z.eqb_neq.
  - unfold processDeposit. tx_unfold.
    repeat (case_match; simpl in *; simplify_eq); try apply call_unchanged.
    apply (call_direct_deposit _ _ userID (DepositRequest.ItemType req) (DepositRequest.Weight req)).
    by apply Z.eqb_neq.
  - unfold redeemPoints. tx_unfold.
    repeat (case_match; simpl in *; simplify_eq); try apply call_unchanged.
    apply (call_redeemed _ _ userID (RedeemRequest.Points req)
             (RedeemRequest.Method req) (RedeemRequest.AccountInfo req)).
    split; [by apply Z.leb_gt | by apply Z.ltb_ge].
Qed.

(** ** Invariants of the session table *)

Lemma session_inv_ext db db' :
  station_sessions db' = station_sessions db →
  station_sessions_seq db' = station_sessions_seq db →
  session_inv db → session_inv db'.
Proof. intros Hs Hq [H1 H2 H3 H4]. split; rewrite ?Hs, ?Hq; done. Qed.

Lemma session_inv_alter db tok f :
  session_inv db →
  (∀ s, station_sessions db !! tok = Some s →
        session_row_ok (f s) ∧ StationSessions.id (f s) = StationSessions.id s) →
  session_inv (with_station_sessions (alter f tok) db).
Proof.
  intros [H1 H2 H3 H4] Hf.
  assert (∀ t s', alter f tok (station_sessions db) !! t = Some s' →
            ∃ s, station_sessions db !! t = Some s ∧
                 StationSessions.id s' = StationSessions.id s ∧ session_row_ok s') as Hold.
  { intros t s'. rewrite lookup_alter. case_decide as E.
    - subst t. intros (s & Hs & ->)%fmap_Some. exists s. split; [done|].
      destruct (Hf s Hs). done.
    - intros Hs. exists s'. eauto. }
  split; simpl.
  - done.
  - intros t s' (s & Hs & -> & _)%Hold. by eapply H2.
  - intros t1 t2 s1 s2 (x1 & Hx1 & -> & _)%Hold (x2 & Hx2 & -> & _)%Hold. by eapply H3.
  - intros t s' (s & _ & _ & Hok)%Hold. done.
Qed.

Ltac row_ok :=
  unfold session_row_ok, session_statuses; simpl;
  repeat split; try done; try (by repeat constructor);
  try (by intros [|]); try (by intros [? ?]).

Lemma session_row_ok_new sid stationID expiresAt :
  session_row_ok (new_session sid stationID expiresAt).
Proof.
  row_ok.
Qed.

Lemma call_effect_session_inv now db db' :
  call_effect now db db' → session_inv db → session_inv db'.
Proof.
  intros Heff Hinv.
  destruct Heff as [|tok stationID Hfresh|tok s Hs Hexp|tok s Hs|tok s u a Hs Hu Hnow Ha
                    |tok s u item w Hs Hu Hp|u item w Hp|u p m a Hp|email name Hfree];
    try by (eapply session_inv_ext; [..|done]).
  - destruct Hinv as [H1 H2 H3 H4]. split; simpl.
    + lia.
    + intros t s. rewrite lookup_insert. case_decide.
      * intros [= <-]. simpl. lia.
      * intros Hs%H2. lia.
    + intros t1 t2 s1 s2. rewrite !lookup_insert. repeat case_decide; subst; try done.
      * intros [= <-] Hs%H2. simpl. lia.
      * intros Hs%H2 [= <-]. simpl. lia.
      * apply H3.
    + intros t s. rewrite lookup_insert. case_decide.
      * intros [= <-]. apply session_row_ok_new.
      * apply H4.
  - apply session_inv_alter; [done|]. intros s0 Hs0. split; [|done].
    destruct (sess_rows _ Hinv _ _ Hs0) as (_ & _ & _ & Hc).
    row_ok; apply Hc.
  - apply session_inv_alter; [done|]. intros s0 Hs0. split; [|done].
    destruct (sess_rows _ Hinv _ _ Hs0) as (_ & _ & _ & Hc).
    row_ok; apply Hc.
  - apply session_inv_alter; [done|]. intros s0 Hs0. split; [|done].
    row_ok.
  - eapply session_inv_ext with (db := with_station_sessions
                                        (alter (StationSessions.set_status "active") tok) db);
      [done..|].
    apply session_inv_alter; [done|]. intros s0 Hs0. split; [|done].
    assert (s0 = s) as -> by congruence.
    destruct (sess_rows _ Hinv _ _ Hs0) as (_ & _ & _ & Hc).
    row_ok; first [apply Hc | by rewrite Hu].
Qed.

Lemma InitDB_station_sessions db :
  station_sessions (InitDB db) = station_sessions db ∧
  station_sessions_seq (InitDB db) = station_sessions_seq db ∧
  transactions (InitDB db) = transactions db ∧
  redemptions (InitDB db) = redemptions db.
Proof. unfold InitDB, insert_or_ignore_user. by repeat case_decide. Qed.

Lemma session_inv_empty : session_inv empty_db.
Proof. split; simpl; try done; intros *; by rewrite ?lookup_empty. Qed.

Lemma reachable_session_inv db : reachable db → session_inv db.
Proof.
  induction 1 as [|db _ IH|db now flt rq _ IH _].
  - destruct (InitDB_station_sessions empty_db) as (? & ? & _).
    eapply session_inv_ext; [done..|]. apply session_inv_empty.
  - destruct (InitDB_station_sessions db) as (? & ? & _). by eapply session_inv_ext.
  - eapply call_effect_session_inv; [apply handle_call_effect | done].
Qed.

(** ** Invariants of the ledger *)

Lemma entries_inv_keep db db' :
  transactions db' = transactions db →
  (∀ tok s u, station_sessions db !! tok = Some s →
     StationSessions.user_id s = Some u →
     ∃ s', station_sessions db' !! tok = Some s' ∧ StationSessions.user_id s' = Some u) →
  entries_inv db → entries_inv db'.
Proof.
  intros Ht Hs [H1 H2 H3]. split; rewrite ?Ht; try done.
  intros e tok He Htok. destruct (H3 e tok He Htok) as (s & Hl & Hu). eauto.
Qed.

Lemma entries_inv_snoc db db' e :
  transactions db' = transactions db ++ [e] →
  Transactions.id e = Z.of_nat (length (transactions db)) + 1 →
  Transactions.station_id e = 1 ∧ (is_deposit_entry e ∨ is_redemption_entry e) →
  (∀ tok, Transactions.session_token e = Some tok →
     ∃ s, station_sessions db' !! tok = Some s ∧
          StationSessions.user_id s = Some (Transactions.user_id e)) →
  (∀ tok s u, station_sessions db !! tok = Some s →
     StationSessions.user_id s = Some u →
     ∃ s', station_sessions db' !! tok = Some s' ∧ StationSessions.user_id s' = Some u) →
  entries_inv db → entries_inv db'.
Proof.
  intros Ht Hid Hkind Htok Hs [H1 H2 H3]. split; rewrite ?Ht.
  - intros i x [Hx|[Hi Hx]]%lookup_app_Some; [by apply H1|].
    apply list_lookup_singleton_Some in Hx as [Hz <-]. rewrite Hid. lia.
  - intros x [Hx| ->%list_elem_of_singleton]%elem_of_app; [by apply H2|done].
  - intros x tok [Hx| ->%list_elem_of_singleton]%elem_of_app Hx'; [|by apply Htok].
    destruct (H3 x tok Hx Hx') as (s & Hl & Hu). eauto.
Qed.

Lemma alter_keeps_bound (f : StationSessions.row → StationSessions.row)
    (m : gmap string StationSessions.row) tok0 tok s u :
  (∀ x, m !! tok0 = Some x → StationSessions.user_id x = Some u →
        StationSessions.user_id (f x) = Some u) →
  m !! tok = Some s → StationSessions.user_id s = Some u →
  ∃ s', alter f tok0 m !! tok = Some s' ∧ StationSessions.user_id s' = Some u.
Proof.
  intros Hf Hs Hu. rewrite lookup_alter. case_decide as E.
  - subst tok0. rewrite Hs. simpl. eauto.
  - eauto.
Qed.

Lemma deposit_entry_kind userID itemType weight token i :
  CalculatePoints itemType weight ≠ 0 →
  Transactions.station_id (deposit_entry userID itemType weight token i) = 1 ∧
  (is_deposit_entry (deposit_entry userID itemType weight token i) ∨
   is_redemption_entry (deposit_entry userID itemType weight token i)).
Proof. intros Hp. split; [done|]. left. by repeat split. Qed.

Lemma redemption_entry_kind userID points i :
  0 < points →
  Transactions.station_id (redemption_entry userID points i) = 1 ∧
  (is_deposit_entry (redemption_entry userID points i) ∨
   is_redemption_entry (redemption_entry userID points i)).
Proof.
  intros Hp. split; [done|]. right. repeat split; simpl; try done; try lia.
  by rewrite Z.opp_involutive.
Qed.

Lemma call_effect_entries_inv now db db' :
  call_effect now db db' → entries_inv db → entries_inv db'.
Proof.
  intros Heff Hinv.
  destruct Heff as [|tok stationID Hfresh|tok s Hs Hexp|tok s Hs|tok s u a Hs Hu Hnow Ha
                    |tok s u item w Hs Hu Hp|u item w Hp|u p m a Hp|email name Hfree].
  - done.
  - apply (entries_inv_keep db); [done| |done]. simpl. intros t x v Hx Hv.
    exists x. rewrite lookup_insert_ne; [done|]. intros <-. congruence.
  - apply (entries_inv_keep db); [done| |done]. simpl. intros t x v.
    by apply alter_keeps_bound.
  - apply (entries_inv_keep db); [done| |done]. simpl. intros t x v.
    by apply alter_keeps_bound.
  - apply (entries_inv_keep db); [done| |done]. simpl. intros t x v.
    apply alter_keeps_bound. intros y Hy. congruence.
  - eapply (entries_inv_snoc db); [done|done|by apply deposit_entry_kind| | |done]; simpl.
    + intros t [= <-]. by apply (alter_keeps_bound _ _ tok tok s u).
    + intros t x v. by apply alter_keeps_bound.
  - eapply (entries_inv_snoc db); [done|done|by apply deposit_entry_kind| | |done]; simpl.
    + done.
    + eauto.
  - eapply (entries_inv_snoc db); [done|done|apply redemption_entry_kind; lia| | |done]; simpl.
    + done.
    + eauto.
  - apply (entries_inv_keep db); [done| |done]. simpl. eauto.
Qed.

Lemma entries_inv_empty : entries_inv empty_db.
Proof.
  split; simpl.
  - intros i e Hl. by destruct i.
  - intros e He. by apply elem_of_nil in He.
  - intros e tok He. by apply elem_of_nil in He.
Qed.

Lemma reachable_entries_inv db : reachable db → entries_inv db.
Proof.
  induction 1 as [|db _ IH|db now flt rq _ IH _].
  - destruct (InitDB_station_sessions empty_db) as (Hs & _ & Ht & _).
    eapply entries_inv_keep; [done| |apply entries_inv_empty]. rewrite Hs. eauto.
  - destruct (InitDB_station_sessions db) as (Hs & _ & Ht & _).
    apply (entries_inv_keep db); [done| |done]. rewrite Hs. eauto.
  - eapply call_effect_entries_inv; [apply handle_call_effect | done].
Qed.

Lemma redemptions_inv_keep db db' :
  transactions db' = transactions db → redemptions db' = redemptions db →
  redemptions_inv db → redemptions_inv db'.
Proof. intros Ht Hr [H1 H2 H3]. split; rewrite ?Ht, ?Hr; done. Qed.

Lemma redemptions_inv_deposit db db' e :
  transactions db' = transactions db ++ [e] → redemptions db' = redemptions db →
  Transactions.type e = "deposit" →
  redemptions_inv db → redemptions_inv db'.
Proof.
  intros Ht Hr He [H1 H2 H3]. split; rewrite ?Ht, ?Hr; try done.
  rewrite filter_app, filter_cons_False, filter_nil, app_nil_r; [done|].
  unfold is_redemption. by rewrite He.
Qed.

Lemma call_effect_redemptions_inv now db db' :
  call_effect now db db' → redemptions_inv db → redemptions_inv db'.
Proof.
  intros Heff Hinv.
  destruct Heff as [|tok stationID Hfresh|tok s Hs Hexp|tok s Hs|tok s u a Hs Hu Hnow Ha
                    |tok s u item w Hs Hu Hp|u item w Hp|u p m a Hp|email name Hfree];
    try by (eapply (redemptions_inv_keep db); [..|done]).
  - by eapply (redemptions_inv_deposit db); [..|done].
  - by eapply (redemptions_inv_deposit db); [..|done].
  - destruct Hinv as [H1 H2 H3]. split; simpl.
    + intros i x [Hx|[Hi Hx]]%lookup_app_Some; [by apply H1|].
      apply list_lookup_singleton_Some in Hx as [Hz <-]. simpl. lia.
    + intros x [Hx| ->%list_elem_of_singleton]%elem_of_app; [by apply H2|].
      simpl. split; [done|lia].
    + rewrite filter_app, filter_cons_True, filter_nil, !fmap_app, H3 by done.
      f_equal. unfold redemption_summary, entry_summary. simpl.
      by rewrite Z.opp_involutive.
Qed.

Lemma redemptions_inv_empty : redemptions_inv empty_db.
Proof.
  split; simpl; try done.
  intros e He. by apply elem_of_nil in He.
Qed.

Lemma reachable_redemptions_inv db : reachable db → redemptions_inv db.
Proof.
  induction 1 as [|db _ IH|db now flt rq _ IH _].
  - destruct (InitDB_station_sessions empty_db) as (_ & _ & Ht & Hr).
    eapply redemptions_inv_keep; [done..|apply redemptions_inv_empty].
  - destruct (InitDB_station_sessions db) as (_ & _ & Ht & Hr).
    by eapply redemptions_inv_keep.
  - eapply call_effect_redemptions_inv; [apply handle_call_effect | done].
Qed.

(** ** The accounts *)

Lemma emails_unique_alter db uid (f : Users.row → Users.row) :
  (∀ u, Users.email (f u) = Users.email u) →
  emails_unique db → emails_unique (with_users (alter f uid) db).
Proof.
  intros Hf Hinv i j ui uj. simpl. rewrite !lookup_alter.
  repeat case_decide; subst;
    repeat (intros (? & ? & ->)%fmap_Some || intros ?); rewrite ?Hf in *; eauto.
Qed.

Lemma emails_unique_insert db uid u seq' :
  ¬ email_taken (Users.email u) db →
  emails_unique db →
  emails_unique {| users := <[uid := u]> (users db); users_seq := seq';
                   transactions := transactions db; redemptions := redemptions db;
                   station_sessions := station_sessions db;
                   station_sessions_seq := station_sessions_seq db |}.
Proof.
  intros Hfree Hinv i j ui uj. simpl. rewrite !lookup_insert.
  repeat case_decide; subst; try done.
  - intros [= <-] Hj He. destruct Hfree. exists j, uj. done.
  - intros Hi [= <-] He. destruct Hfree. exists i, ui. done.
  - apply Hinv.
Qed.

Lemma insert_or_ignore_user_emails uid u db :
  emails_unique db → emails_unique (insert_or_ignore_user uid u db).
Proof.
  intros Hinv. unfold insert_or_ignore_user. case_decide as E; [done|].
  apply emails_unique_insert; [|done]. tauto.
Qed.

Lemma call_effect_emails_unique now db db' :
  call_effect now db db' → emails_unique db → emails_unique db'.
Proof.
  intros Heff Hinv.
  destruct Heff as [|tok stationID Hfresh|tok s Hs Hexp|tok s Hs|tok s u a Hs Hu Hnow Ha
                    |tok s u item w Hs Hu Hp|u item w Hp|u p m a Hp|email name Hfree];
    try done.
  - intros i j ui uj. simpl.
    apply (emails_unique_alter db u (Users.add_points _) (λ _, eq_refl) Hinv i j ui uj).
  - intros i j ui uj. simpl.
    apply (emails_unique_alter db u (Users.add_points _) (λ _, eq_refl) Hinv i j ui uj).
  - intros i j ui uj. simpl.
    apply (emails_unique_alter db u (Users.sub_points _) (λ _, eq_refl) Hinv i j ui uj).
  - by apply (emails_unique_insert db _
                {| Users.email := email; Users.full_name := name;
                   Users.total_points := 0 |}).
Qed.

Lemma reachable_emails_unique db : reachable db → emails_unique db.
Proof.
  induction 1 as [|db _ IH|db now flt rq _ IH _].
  - do 2 apply insert_or_ignore_user_emails. intros i j ui uj. simpl.
    by rewrite lookup_empty.
  - by do 2 apply insert_or_ignore_user_emails.
  - eapply call_effect_emails_unique; [apply handle_call_effect | done].
Qed.

(** ** Failure replies *)

(** X1.  A failure reply comes with the tables exactly as they were, with
    four exceptions that the handlers make themselves: requestSession has
    already inserted the session row when the QR encoder fails, and
    checkSession marks a session expired in the same call that reports the
    expiry; in the same way generateQRLogin has inserted its row when the QR
    encoder fails, and verifyToken has bound the session when the JWT cannot
    be signed. *)
Theorem failure_leaves_database now flt rq db sec lrq ldb :
  (Success (handle now flt rq db).2 = false →
   (handle now flt rq db).1 = db ∨
   (∃ tok req, rq = RequestSession tok req ∧
      Error (handle now flt rq db).2 = "Failed to generate QR code") ∨
   (∃ req, rq = CheckSession req ∧
      Error (handle now flt rq db).2 = "Session has expired")) ∧
  (Success (handle_login sec now flt lrq ldb).2 = false →
   (handle_login sec now flt lrq ldb).1 = ldb ∨
   (∃ token qrToken, lrq = GenerateQRLogin token qrToken ∧
      Error (handle_login sec now flt lrq ldb).2 = "Failed to generate QR code image") ∨
   (∃ req users, lrq = VerifyToken req users ∧
      Error (handle_login sec now flt lrq ldb).2 = "Failed to generate token")).
Proof.
  split.
  - destruct rq; simpl.
    + unfold register. repeat case_match; simpl; intros; (by left) || done.
    + unfold requestSession. repeat case_match; simpl; intros; try (by left); try done.
      all: right; left; by eexists _, _.
    + unfold checkSession. repeat case_match; simpl; intros; try (by left); try done.
      all: right; right; by eexists.
    + unfold connectSession. repeat case_match; simpl; intros; (by left) || done.
    + unfold endSession. repeat case_match; simpl; intros; (by left) || done.
    + unfold deposit. tx_unfold.
      repeat (case_match; simpl in *; simplify_eq); intros; (by left) || done.
    + unfold createTransaction. tx_unfold.
      repeat (case_match; simpl in *; simplify_eq); intros; (by left) || done.
    + unfold processDeposit. tx_unfold.
      repeat (case_match; simpl in *; simplify_eq); intros; (by left) || done.
    + unfold redeemPoints. tx_unfold.
      repeat (case_match; simpl in *; simplify_eq); intros; (by left) || done.
  - destruct lrq; simpl.
    + unfold generateQRLogin. repeat case_match; simpl; intros; try (by left); try done.
      all: right; left; by eexists _, _.
    + unfold verifyToken. repeat case_match; simpl; intros; try (by left); try done.
      all: right; right; by eexists _, _.
    + unfold logout. repeat case_match; simpl; intros; (by left) || done.
Qed.

Lemma failure_leaves_database_witness :
  (handle 1020 no_faults (ConnectSession sample_verifyJWT bind_A_user2) db_connected).1
  = db_connected ∨
  (∃ tok req, ConnectSession sample_verifyJWT bind_A_user2 = RequestSession tok req ∧
     Error (handle 1020 no_faults (ConnectSession sample_verifyJWT bind_A_user2)
              db_connected).2 = "Failed to generate QR code") ∨
  (∃ req, ConnectSession sample_verifyJWT bind_A_user2 = CheckSession req ∧
     Error (handle 1020 no_faults (ConnectSession sample_verifyJWT bind_A_user2)
              db_connected).2 = "Session has expired").
Proof.
  apply (proj1 (failure_leaves_database 1020 no_faults
                  (ConnectSession sample_verifyJWT bind_A_user2) db_connected
                  sample_secrets (Logout {| LogoutRequest.Token := "" |})
                  empty_login_db)).
  by vm_compute.
Defined.

(** ** The life of a session *)

(** X2.  A session created by requestSession at time [now] under a token
    that is not empty reports the deadline [now + 300]; a poll by
    checkSession up to and including that second answers "pending" and changes
    nothing, a poll after it answers 401 "Session has expired" and, unless the
    UPDATE fails, leaves the row with status "expired" and still unbound. *)
Theorem session_deadline now now' tok flt flt' req db :
  tok ≠ "" →
  Success (requestSession now tok flt req db).2 = true →
  let created := requestSession now tok flt req db in
  let poll := checkSession now' flt' {| CheckSessionRequest.SessionToken := tok |} created.1 in
  field "expiresAt" created.2 = Some (JTime (now + 300)) ∧
  (now' ≤ now + 300 →
   poll = (created.1, respond_ok StatusOK "" [("status", JString "pending")])) ∧
  (now + 300 < now' →
   poll.2 = respond_error StatusUnauthorized "Session has expired" ∧
   (flt' 0%nat = false →
    ∃ s, station_sessions poll.1 !! tok = Some s ∧
         StationSessions.status s = "expired" ∧ StationSessions.user_id s = None ∧
         StationSessions.expires_at s = now + 300)).
Proof.
  intros Htok. unfold requestSession, checkSession, sessionTTL. simpl.
  rewrite (proj2 (String.eqb_neq _ _) Htok).
  repeat case_match; simpl in *; try done; intros _;
    simplify_map_eq; repeat split; try done; intros; try lia.
  all: try (match goal with H : (_ <? _) = true |- _ => apply Z.ltb_lt in H; lia end).
  all: try (match goal with H : (_ <? _) = false |- _ => apply Z.ltb_ge in H; lia end).
  all: simplify_map_eq; try by eexists.
Qed.

Lemma session_deadline_witness :
  checkSession 1300 no_faults check_A db_pending
  = (db_pending, respond_ok StatusOK "" [("status", JString "pending")]).
Proof.
  exact (proj1 (proj2 (session_deadline 1000 1300 "token-A" no_faults no_faults
                         {| RequestSessionRequest.StationID := "" |} (InitDB empty_db)
                         ltac:(done) ltac:(by vm_compute)))
           ltac:(lia)).
Defined.

Lemma requestSession_created now tok flt req db :
  Success (requestSession now tok flt req db).2 = true →
  station_sessions db !! tok = None ∧
  ∃ stationID,
    (requestSession now tok flt req db).1
    = {| users := users db; users_seq := users_seq db;
         transactions := transactions db; redemptions := redemptions db;
         station_sessions :=
           <[tok := new_session (station_sessions_seq db + 1) stationID (now + sessionTTL)]>
             (station_sessions db);
         station_sessions_seq := station_sessions_seq db + 1 |}.
Proof.
  unfold requestSession.
  destruct (flt 0%nat || bool_decide (is_Some (station_sessions db !! tok))) eqn:E;
    [done|].
  apply orb_false_elim in E as [_ E]. apply bool_decide_eq_false in E.
  destruct (flt 1%nat); [done|]. simpl. intros _. split.
  - destruct (station_sessions db !! tok); [|done]. destruct E. by eexists.
  - by eexists.
Qed.

Lemma connectSession_binds verifyJWT now tok authToken userID s db :
  tok ≠ "" → authToken ≠ "" → verifyJWT authToken = Some userID →
  station_sessions db !! tok = Some s → StationSessions.user_id s = None →
  now ≤ StationSessions.expires_at s →
  connectSession verifyJWT now no_faults
    {| ConnectSessionRequest.SessionToken := tok;
       ConnectSessionRequest.AuthToken := authToken |} db
  = (with_station_sessions
       (alter (StationSessions.set_connected userID authToken "connected") tok) db,
     respond_ok StatusOK "User connected to station session" []).
Proof.
  intros Htok Hauth Hjwt Hs Hu Hnow. unfold connectSession. simpl.
  rewrite (proj2 (String.eqb_neq _ _) Htok), (proj2 (String.eqb_neq _ _) Hauth).
  simpl. rewrite Hjwt, Hs, Hu. by rewrite (proj2 (Z.ltb_ge _ _) Hnow).
Qed.

Lemma deposit_earns userID material weight tok s db :
  material ≠ "" → Float64.leb weight Float64.zero = false → tok ≠ "" →
  station_sessions db !! tok = Some s → StationSessions.user_id s = Some userID →
  CalculatePoints material weight ≠ 0 →
  let db' :=
    with_station_sessions (alter (StationSessions.set_status "active") tok)
      (update_points userID (CalculatePoints material weight)
         (insert_transaction (deposit_entry userID material weight (Some tok)) db).1) in
  deposit no_faults userID
    {| SessionDepositRequest.Material := material;
       SessionDepositRequest.Weight := weight;
       SessionDepositRequest.SessionToken := tok |} db
  = (db', respond_ok StatusOK "Deposit recorded successfully"
            [("newBalance", JInt (BalanceOf db' userID));
             ("pointsEarned", JInt (CalculatePoints material weight));
             ("transactionId", JInt (Z.of_nat (length (transactions db)) + 1))]).
Proof.
  intros Hm Hw Htok Hs Hu Hp. unfold deposit. simpl.
  rewrite (proj2 (String.eqb_neq _ _) Htok), (proj2 (String.eqb_neq _ _) Hm), Hw.
  simpl. rewrite Hs, Hu. rewrite bool_decide_eq_false_2 by (intros H; by apply H).
  rewrite (proj2 (Z.eqb_neq _ _) Hp). done.
Qed.

(** X3.  The pairing flow end to end: a station opens a session, a user
    whose credential verifies binds it before the deadline, and deposits a
    material of positive weight that is worth points; the user's stored
    balance is an integer, and the balance with the points added is still a
    64-bit integer.  The bind and the deposit both answer 200; the deposit
    reports the points of CalculatePoints and the old balance plus these
    points, which is also the stored balance; the session is "active", bound
    to the user and keeps the deadline of its creation; the ledger has grown
    by this one entry, which carries the session token. *)
Theorem pairing_flow_earns verifyJWT now1 now2 tok authToken userID flt req
    material weight db u i :
  tok ≠ "" → authToken ≠ "" → verifyJWT authToken = Some userID →
  users db !! userID = Some u → Users.total_points u = Sqlite.Integer i →
  Sqlite.in_int64 (BalanceOf db userID + CalculatePoints material weight) = true →
  Success (requestSession now1 tok flt req db).2 = true →
  now2 ≤ now1 + 300 →
  material ≠ "" → Float64.leb weight Float64.zero = false →
  CalculatePoints material weight ≠ 0 →
  let points := CalculatePoints material weight in
  let created := requestSession now1 tok flt req db in
  let bound :=
    connectSession verifyJWT now2 no_faults
      {| ConnectSessionRequest.SessionToken := tok;
         ConnectSessionRequest.AuthToken := authToken |} created.1 in
  let earned :=
    deposit no_faults userID
      {| SessionDepositRequest.Material := material;
         SessionDepositRequest.Weight := weight;
         SessionDepositRequest.SessionToken := tok |} bound.1 in
  Status bound.2 = StatusOK ∧ Status earned.2 = StatusOK ∧
  field "pointsEarned" earned.2 = Some (JInt points) ∧
  field "newBalance" earned.2 = Some (JInt (BalanceOf db userID + points)) ∧
  BalanceOf earned.1 userID = BalanceOf db userID + points ∧
  (∃ s, station_sessions earned.1 !! tok = Some s ∧
        StationSessions.status s = "active" ∧
        StationSessions.user_id s = Some userID ∧
        StationSessions.auth_token s = Some authToken ∧
        StationSessions.expires_at s = now1 + 300) ∧
  transactions earned.1
  = transactions db
    ++ [deposit_entry userID material weight (Some tok)
          (Z.of_nat (length (transactions db)) + 1)].
Proof.
  intros Htok Hauth Hjwt Hu Hi Hin Hreq Hnow Hm Hw Hp. simpl.
  assert (BalanceOf db userID = Sqlite.int64 i) as Hb
    by (unfold BalanceOf; by rewrite Hu, Hi).
  rewrite Hb in Hin |- *.
  destruct (requestSession_created _ _ _ _ _ Hreq) as (Hfresh & stationID & ->).
  erewrite connectSession_binds; [|done..| | |]; cycle 1.
  { simpl. apply lookup_insert_eq. }
  { done. }
  { simpl. unfold sessionTTL. lia. }
  erewrite deposit_earns; [|done..| | |done]; cycle 1.
  { simpl. rewrite lookup_alter_eq, lookup_insert_eq. done. }
  { done. }
  simpl.
  repeat split; try done.
  - unfold field, BalanceOf. simpl. rewrite lookup_alter_eq, Hu. simpl.
    rewrite Hi. simpl. rewrite Hin. simpl. by rewrite (int64_id _ Hin).
  - unfold BalanceOf. simpl. rewrite lookup_alter_eq, Hu. simpl.
    rewrite Hi. simpl. rewrite Hin. simpl. by rewrite (int64_id _ Hin).
  - rewrite lookup_alter_eq, lookup_alter_eq, lookup_insert_eq. simpl.
    eexists. repeat split; try done; simpl; unfold sessionTTL; lia.
Qed.

Lemma pairing_flow_earns_witness :
  BalanceOf db_active 1 = BalanceOf (InitDB empty_db) 1
                          + CalculatePoints "metal" (Float64.of_int 2).
Proof.
  exact (proj1 (proj2 (proj2 (proj2 (proj2
    (pairing_flow_earns sample_verifyJWT 1000 1010 "token-A" "jwt-1" 1 no_faults
       {| RequestSessionRequest.StationID := "" |} "metal" (Float64.of_int 2)
       (InitDB empty_db) dummy_user 1000
       ltac:(done) ltac:(done) ltac:(done) ltac:(by vm_compute) ltac:(done)
       ltac:(by vm_compute)
       ltac:(by vm_compute) ltac:(lia) ltac:(done) ltac:(by vm_compute)
       ltac:(by vm_compute))))))).
Defined.

Lemma session_kept_refl s : session_kept s s.
Proof. by repeat split. Qed.

Lemma session_kept_trans s1 s2 s3 :
  session_kept s1 s2 → session_kept s2 s3 → session_kept s1 s3.
Proof.
  intros (H1 & H2 & H3 & H4) (K1 & K2 & K3 & K4). repeat split; try congruence.
  - destruct (H4 H) as [Hu _]. destruct K4 as [Ku _]; [by rewrite Hu|congruence].
  - destruct (H4 H) as [Hu Ha]. destruct K4 as [_ Ka]; [by rewrite Hu|congruence].
Qed.

Lemma alter_session_kept (f : StationSessions.row → StationSessions.row)
    (m : gmap string StationSessions.row) tok0 tok s :
  (∀ x, m !! tok0 = Some x → session_kept x (f x)) →
  m !! tok = Some s →
  ∃ s', alter f tok0 m !! tok = Some s' ∧ session_kept s s'.
Proof.
  intros Hf Hs. rewrite lookup_alter. case_decide as E.
  - subst tok0. rewrite Hs. simpl. eauto.
  - eauto using session_kept_refl.
Qed.

Lemma call_effect_session_kept now db db' tok s :
  call_effect now db db' → station_sessions db !! tok = Some s →
  ∃ s', station_sessions db' !! tok = Some s' ∧ session_kept s s'.
Proof.
  intros Heff Hs.
  destruct Heff as [|tok0 stationID Hfresh|tok0 s0 Hs0 Hexp|tok0 s0 Hs0
                    |tok0 s0 u a Hs0 Hu Hnow Ha
                    |tok0 s0 u item w Hs0 Hu Hp|u item w Hp|u p m a Hp|email name Hfree];
    simpl; eauto using session_kept_refl.
  - exists s. split; [|apply session_kept_refl].
    rewrite lookup_insert_ne; [done|]. intros <-. congruence.
  - apply alter_session_kept; [|done]. intros x _. by repeat split.
  - apply alter_session_kept; [|done]. intros x _. by repeat split.
  - apply alter_session_kept; [|done]. intros x Hx.
    do 3 (split; [done|]). intros [v Hv]. congruence.
  - apply alter_session_kept; [|done]. intros x _. by repeat split.
Qed.

(** X4.  No sequence of calls deletes a session row or changes its id, its
    station or its deadline; and once a user is bound, the user and the
    credential stored with the row stay as they are. *)
Theorem session_rows_persist calls db tok s :
  station_sessions db !! tok = Some s →
  ∃ s', station_sessions (run calls db) !! tok = Some s' ∧
        StationSessions.id s' = StationSessions.id s ∧
        StationSessions.station_id s' = StationSessions.station_id s ∧
        StationSessions.expires_at s' = StationSessions.expires_at s ∧
        (is_Some (StationSessions.user_id s) →
         StationSessions.user_id s' = StationSessions.user_id s ∧
         StationSessions.auth_token s' = StationSessions.auth_token s).
Proof.
  change (station_sessions db !! tok = Some s →
          ∃ s', station_sessions (run calls db) !! tok = Some s' ∧ session_kept s s').
  revert db s. induction calls as [|[[now flt] rq] rest IH]; intros db s Hs; simpl.
  - eauto using session_kept_refl.
  - destruct (call_effect_session_kept now db _ tok s (handle_call_effect now flt rq db) Hs)
      as (s1 & Hs1 & Hk1).
    destruct (IH _ _ Hs1) as (s2 & Hs2 & Hk2).
    eauto using session_kept_trans.
Qed.

Lemma session_rows_persist_witness :
  ∃ s', station_sessions
          (run [(1020, no_faults, EndSession end_A);
                (1030, no_faults, ConnectSession sample_verifyJWT bind_A_user2)]
             db_connected) !! "token-A" = Some s' ∧
        StationSessions.id s' = 1 ∧
        StationSessions.station_id s' = "default" ∧
        StationSessions.expires_at s' = 1300 ∧
        (is_Some (Some 1) →
         StationSessions.user_id s' = Some 1 ∧
         StationSessions.auth_token s' = Some "jwt-1").
Proof.
  apply (session_rows_persist
           [(1020, no_faults, EndSession end_A);
            (1030, no_faults, ConnectSession sample_verifyJWT bind_A_user2)]
           db_connected "token-A"
           {| StationSessions.id := 1; StationSessions.station_id := "default";
              StationSessions.user_id := Some 1; StationSessions.status := "connected";
              StationSessions.auth_token := Some "jwt-1";
              StationSessions.expires_at := 1300; StationSessions.ended_at := None |}).
  by vm_compute.
Defined.

(** X5.  In every reachable state a session row is in one of the four
    states "pending", "connected", "active" and "expired"; a pending session
    has no user and no end time, a connected or active one has a user; a row
    carries a credential exactly when it carries a user; its id lies between 1
    and the AUTOINCREMENT counter and no other token has the same id. *)
Theorem reachable_sessions_well_formed db tok s :
  reachable db → station_sessions db !! tok = Some s →
  StationSessions.status s ∈ session_statuses ∧
  (StationSessions.status s = "pending" →
     StationSessions.user_id s = None ∧ StationSessions.ended_at s = None) ∧
  (StationSessions.status s = "connected" ∨ StationSessions.status s = "active" →
     is_Some (StationSessions.user_id s)) ∧
  (is_Some (StationSessions.user_id s) ↔ is_Some (StationSessions.auth_token s)) ∧
  1 ≤ StationSessions.id s ≤ station_sessions_seq db ∧
  (∀ tok' s', station_sessions db !! tok' = Some s' →
     StationSessions.id s' = StationSessions.id s → tok' = tok).
Proof.
  intros [H1 H2 H3 H4]%reachable_session_inv Hs.
  destruct (H4 _ _ Hs) as (? & ? & ? & ?). repeat split; try done; try by apply (H2 _ _ Hs).
  all: try tauto.
  intros tok' s' Hs' Hid. by eapply H3.
Qed.

Lemma reachable_db_active : reachable db_active.
Proof.
  apply (reachable_step _ 0 no_faults (Deposit 1 metal_2kg_A)); [|vm_compute; by eexists].
  apply (reachable_step _ 1010 no_faults (ConnectSession sample_verifyJWT bind_A_user1));
    [|done].
  apply (reachable_step _ 1000 no_faults
           (RequestSession "token-A" {| RequestSessionRequest.StationID := "" |}));
    [|done].
  apply reachable_init.
Qed.

Lemma reachable_sessions_well_formed_witness :
  "active" ∈ session_statuses ∧ 1 ≤ 1 ≤ station_sessions_seq db_active.
Proof.
  destruct (reachable_sessions_well_formed db_active "token-A"
              {| StationSessions.id := 1; StationSessions.station_id := "default";
                 StationSessions.user_id := Some 1; StationSessions.status := "active";
                 StationSessions.auth_token := Some "jwt-1";
                 StationSessions.expires_at := 1300; StationSessions.ended_at := None |}
              reachable_db_active ltac:(by vm_compute)) as (H1 & _ & _ & _ & H2 & _).
  exact (conj H1 H2).
Defined.

(** ** The ledger as a log *)

Lemma call_effect_append now db db' :
  call_effect now db db' →
  ∃ entries records,
    transactions db' = transactions db ++ entries ∧
    redemptions db' = redemptions db ++ records ∧
    (length entries ≤ 1)%nat ∧ (length records ≤ length entries)%nat.
Proof.
  intros [|tok0 stationID Hfresh|tok0 s0 Hs0 Hexp|tok0 s0 Hs0
          |tok0 s0 u a Hs0 Hu Hnow Ha
          |tok0 s0 u item w Hs0 Hu Hp|u item w Hp|u p m a Hp|email name Hfree]; simpl.
  all: try (exists [], []; rewrite !app_nil_r; repeat split; simpl; (done || lia)).
  all: try (eexists [_], []; rewrite !app_nil_r; repeat split; simpl; (done || lia)).
  eexists [_], [_]. repeat split; simpl; lia.
Qed.

(** X6.  The ledger and the redemption table are logs: whatever calls are
    made, the rows that were there stay, in their order and unchanged, and new
    rows are only added after them, at most one ledger entry per call and
    never a redemption record without one. *)
Theorem ledger_append_only calls db :
  ∃ entries records,
    transactions (run calls db) = transactions db ++ entries ∧
    redemptions (run calls db) = redemptions db ++ records ∧
    (length entries ≤ length calls)%nat ∧ (length records ≤ length entries)%nat.
Proof.
  revert db. induction calls as [|[[now flt] rq] rest IH]; intros db; simpl.
  - exists [], []. rewrite !app_nil_r. repeat split; simpl; lia.
  - destruct (call_effect_append now db _ (handle_call_effect now flt rq db))
      as (e1 & r1 & Ht1 & Hr1 & Hl1 & Hl1').
    destruct (IH (handle now flt rq db).1) as (e2 & r2 & Ht2 & Hr2 & Hl2 & Hl2').
    exists (e1 ++ e2), (r1 ++ r2).
    rewrite Ht2, Hr2, Ht1, Hr1, <- !app_assoc, !length_app. repeat split; lia.
Qed.

(** X7.  In every reachable state the i-th ledger entry has id i+1 and
    station 1, and is of one of two kinds: a deposit, whose points are those
    of CalculatePoints for its material and weight, are not zero, and whose
    amount is zero; or a redemption, with item type "redemption", negative
    points, weight zero, no session token and the amount
    [float64(points) * 10.0]. *)
Theorem reachable_entries_well_formed db i e :
  reachable db → transactions db !! i = Some e →
  Transactions.id e = Z.of_nat i + 1 ∧
  Transactions.station_id e = 1 ∧
  (is_deposit_entry e ∨ is_redemption_entry e).
Proof.
  intros [H1 H2 H3]%reachable_entries_inv He. split; [by apply H1|].
  apply H2. by eapply list_elem_of_lookup_2.
Qed.

Lemma reachable_entries_well_formed_witness :
  Transactions.id (deposit_entry 1 "metal" (Float64.of_int 2) (Some "token-A") 1)
  = Z.of_nat 0 + 1.
Proof.
  exact (proj1 (reachable_entries_well_formed db_active 0
                  (deposit_entry 1 "metal" (Float64.of_int 2) (Some "token-A") 1)
                  reachable_db_active ltac:(by vm_compute))).
Defined.

(** X8.  In every reachable state a ledger entry that carries a session
    token belongs to the user bound to that session: the session exists and
    its user is the owner of the entry. *)
Theorem session_entries_owned db e tok :
  reachable db → e ∈ transactions db → Transactions.session_token e = Some tok →
  ∃ s, station_sessions db !! tok = Some s ∧
       StationSessions.user_id s = Some (Transactions.user_id e).
Proof. intros [H1 H2 H3]%reachable_entries_inv. apply H3. Qed.

Lemma session_entries_owned_witness :
  ∃ s, station_sessions db_active !! "token-A" = Some s ∧
       StationSessions.user_id s = Some 1.
Proof.
  apply (session_entries_owned db_active
           (deposit_entry 1 "metal" (Float64.of_int 2) (Some "token-A") 1) "token-A"
           reachable_db_active).
  - vm_compute. apply list_elem_of_here.
  - done.
Defined.

(** X9.  In every reachable state the redemption table and the ledger tell
    the same story: the records of the table, in order, have the owner, the
    points and the cash amount of the ledger entries of type "redemption", in
    order; the i-th record has id i+1, status "pending" and a positive number
    of points. *)
Theorem redemptions_match_ledger db :
  reachable db →
  redemption_summary <$> redemptions db
  = entry_summary <$> filter is_redemption (transactions db) ∧
  ∀ i r, redemptions db !! i = Some r →
    Redemptions.id r = Z.of_nat i + 1 ∧
    Redemptions.status r = "pending" ∧ 0 < Redemptions.points_used r.
Proof.
  intros [H1 H2 H3]%reachable_redemptions_inv. split; [done|].
  intros i r Hr. split; [by apply H1|]. apply H2. by eapply list_elem_of_lookup_2.
Qed.

Lemma redemptions_match_ledger_witness :
  redemption_summary <$> redemptions (redeemPoints no_faults 1 redeem_100_cash db_active).1
  = entry_summary
      <$> filter is_redemption
            (transactions (redeemPoints no_faults 1 redeem_100_cash db_active).1).
Proof.
  apply (redemptions_match_ledger
           (handle 0 no_faults (RedeemPoints 1 redeem_100_cash) db_active).1).
  apply reachable_step; [apply reachable_db_active | vm_compute; by eexists].
Defined.

(** X10.  In every reachable state no two accounts have the same email. *)
Theorem accounts_have_distinct_emails db i j ui uj :
  reachable db → users db !! i = Some ui → users db !! j = Some uj →
  Users.email ui = Users.email uj → i = j.
Proof. intros H%reachable_emails_unique. apply H. Qed.

Lemma accounts_have_distinct_emails_witness : 2 = 2.
Proof.
  apply (accounts_have_distinct_emails db_active 2 2 demo_user demo_user
           reachable_db_active); by vm_compute.
Defined.

(** ** Accounts *)

(** X11.  A successful registration in a reachable state answers with an id
    that no account had and that lies above every existing id; the new
    account has the email and name of the request, no points and no ledger
    entry; the email was not in use; every other account and the ledger are
    as before. *)
Theorem register_opens_fresh_account flt req db :
  reachable db → Success (register flt req db).2 = true →
  let db' := (register flt req db).1 in
  let uid := users_seq db + 1 in
  field "id" (register flt req db).2 = Some (JInt uid) ∧
  users db !! uid = None ∧
  (∀ other, is_Some (users db !! other) → other < uid) ∧
  ¬ email_taken (RegisterRequest.Email req) db ∧
  users db' !! uid
  = Some {| Users.email := RegisterRequest.Email req;
            Users.full_name := RegisterRequest.FullName req;
            Users.total_points := 0 |} ∧
  (∀ other, other ≠ uid → users db' !! other = users db !! other) ∧
  transactions db' = transactions db ∧
  ledger_sum (transactions db') uid = 0.
Proof.
  intros Hreach. destruct (reachable_inv _ Hreach) as [_ Hinv].
  assert (∀ other, is_Some (users db !! other) → other < users_seq db + 1) as Hbelow.
  { intros other H%(inv_seq _ Hinv). lia. }
  assert (users db !! (users_seq db + 1) = None) as Hfresh.
  { destruct (users db !! (users_seq db + 1)) eqn:E; [|done].
    assert (users_seq db + 1 < users_seq db + 1) by (apply Hbelow; by eexists). lia. }
  unfold register.
  destruct (String.eqb (RegisterRequest.Email req) "" || _ || _); [done|].
  destruct (flt 0%nat); [done|].
  destruct (flt 1%nat || bool_decide (email_taken (RegisterRequest.Email req) db)) eqn:E;
    [done|].
  apply orb_false_elim in E as [_ E]. apply bool_decide_eq_false in E.
  intros _. simpl. repeat split; try done.
  - by rewrite lookup_insert_eq.
  - intros other Hne. by rewrite lookup_insert_ne.
  - apply ledger_sum_absent. intros e He Hown.
    apply (inv_owners _ Hinv) in He. rewrite Hown, Hfresh in He. by destruct He.
Qed.

Lemma register_opens_fresh_account_witness :
  field "id"
    (register no_faults
       {| RegisterRequest.Email := "new@trash2cash.com"; RegisterRequest.Password := "pw";
          RegisterRequest.FullName := "New User" |} db_active).2
  = Some (JInt (users_seq db_active + 1)).
Proof.
  exact (proj1 (register_opens_fresh_account no_faults
                  {| RegisterRequest.Email := "new@trash2cash.com";
                     RegisterRequest.Password := "pw";
                     RegisterRequest.FullName := "New User" |} db_active
                  reachable_db_active ltac:(by vm_compute))).
Defined.

Lemma insert_or_ignore_user_noop uid u db :
  is_Some (users db !! uid) ∨ email_taken (Users.email u) db →
  insert_or_ignore_user uid u db = db.
Proof. intros H. unfold insert_or_ignore_user. by rewrite decide_True. Qed.

Lemma insert_or_ignore_user_mono uid u db k v :
  is_Some (users db !! k) ∨ email_taken (Users.email v) db →
  is_Some (users (insert_or_ignore_user uid u db) !! k) ∨
  email_taken (Users.email v) (insert_or_ignore_user uid u db).
Proof.
  unfold insert_or_ignore_user. case_decide as E; [done|]. simpl.
  intros [Hk|(i & x & Hi & Hx)].
  - left. rewrite lookup_insert. by case_decide.
  - right. exists i, x. split; [|done]. simpl. rewrite lookup_insert_ne; [done|].
    intros <-. apply E. left. by eexists.
Qed.

Lemma insert_or_ignore_user_present uid u db :
  is_Some (users (insert_or_ignore_user uid u db) !! uid) ∨
  email_taken (Users.email u) (insert_or_ignore_user uid u db).
Proof.
  unfold insert_or_ignore_user. case_decide as E; [done|]. simpl.
  left. by rewrite lookup_insert_eq.
Qed.

Lemma insert_or_ignore_user_subseteq uid u db :
  users db ⊆ users (insert_or_ignore_user uid u db).
Proof.
  unfold insert_or_ignore_user. case_decide as E; [done|]. simpl.
  apply insert_subseteq. destruct (users db !! uid) eqn:Hu; [|done].
  destruct E. left. by eexists.
Qed.

(** X12.  InitDB can be run again at any time: a second run changes
    nothing; a run keeps every account that exists, with its balance, and
    touches neither the ledger, nor the redemptions, nor the sessions. *)
Theorem InitDB_idempotent db :
  InitDB (InitDB db) = InitDB db ∧
  users db ⊆ users (InitDB db) ∧
  transactions (InitDB db) = transactions db ∧
  redemptions (InitDB db) = redemptions db ∧
  station_sessions (InitDB db) = station_sessions db.
Proof.
  destruct (InitDB_station_sessions db) as (Hs & _ & Ht & Hr).
  repeat split; try done.
  - unfold InitDB at 1.
    rewrite (insert_or_ignore_user_noop 1 dummy_user (InitDB db)).
    + apply insert_or_ignore_user_noop. apply insert_or_ignore_user_present.
    + apply insert_or_ignore_user_mono, insert_or_ignore_user_present.
  - etransitivity; [|apply insert_or_ignore_user_subseteq].
    apply insert_or_ignore_user_subseteq.
Qed.

(** ** Redemption *)

Lemma BalanceOf_deducted db d userID p :
  0 < p ≤ BalanceOf db userID →
  users d = users (deduct_points userID p db) →
  BalanceOf d userID = BalanceOf db userID - p.
Proof.
  intros Hp Hd. destruct (BalanceOf_nonzero db userID ltac:(lia)) as (u & i & Hu & Hi & Hb).
  assert (Sqlite.in_int64 (Sqlite.int64 i + - p) = true) as Hin.
  { apply in_int64_spec. pose proof (int64_bounds i).
    unfold Float64.int_min, Float64.int_max in *. lia. }
  rewrite (BalanceOf_users _ _ _ Hd). unfold deduct_points.
  rewrite (BalanceOf_moved _ _ _ _ u i (moves_points_sub p) Hu Hi Hin). lia.
Qed.

Lemma redeemPoints_redeemed flt userID req db :
  Success (redeemPoints flt userID req db).2 = true →
  0 < RedeemRequest.Points req ≤ BalanceOf db userID ∧
  (redeemPoints flt userID req db).1
  = (insert_transaction (redemption_entry userID (RedeemRequest.Points req))
       (deduct_points userID (RedeemRequest.Points req)
          (insert_redemption
             (redemption_row userID (RedeemRequest.Points req)
                (RedeemRequest.Method req) (RedeemRequest.AccountInfo req)) db).1)).1.
Proof.
  unfold redeemPoints. tx_unfold.
  repeat (case_match; simpl in *; simplify_eq); try done.
  intros _. split; [|done].
  repeat match goal with
         | H : (_ <=? _) = false |- _ => apply Z.leb_gt in H
         | H : (_ <? _) = false |- _ => apply Z.ltb_ge in H
         end. lia.
Qed.

(** X13.  No double spend: after a successful redemption of [p] points, a
    second request for [q] points that the first balance cannot cover
    together with [p] is answered 400 "Insufficient points", whatever the
    storage does, and leaves the database of the first redemption as it is. *)
Theorem no_double_spend flt flt' userID req req' db :
  Success (redeemPoints flt userID req db).2 = true →
  0 < RedeemRequest.Points req' →
  BalanceOf db userID < RedeemRequest.Points req + RedeemRequest.Points req' →
  redeemPoints flt' userID req' (redeemPoints flt userID req db).1
  = ((redeemPoints flt userID req db).1,
     respond_error StatusBadRequest "Insufficient points").
Proof.
  intros [Hp ->]%redeemPoints_redeemed Hq Hsum.
  unfold redeemPoints at 1.
  rewrite (proj2 (Z.leb_gt _ _) Hq).
  rewrite (BalanceOf_deducted db _ userID (RedeemRequest.Points req) Hp) by done.
  by rewrite (proj2 (Z.ltb_lt _ _)) by lia.
Qed.

Lemma no_double_spend_witness :
  redeemPoints no_faults 1
    {| RedeemRequest.Points := 950; RedeemRequest.Method := "bank";
       RedeemRequest.AccountInfo := "" |}
    (redeemPoints no_faults 1 redeem_100_cash (InitDB empty_db)).1
  = ((redeemPoints no_faults 1 redeem_100_cash (InitDB empty_db)).1,
     respond_error StatusBadRequest "Insufficient points").
Proof.
  apply (no_double_spend no_faults no_faults 1 redeem_100_cash
           {| RedeemRequest.Points := 950; RedeemRequest.Method := "bank";
              RedeemRequest.AccountInfo := "" |} (InitDB empty_db));
    by vm_compute.
Defined.

(** X14.  The minimum of a redemption option is advertised but not
    enforced: for every option that getRedemptionOptions lists, a request with
    that method for fewer points than the option's [min_points], but more than
    none and no more than the [total_points] of the same reply, succeeds with
    201 and leaves exactly the difference, when the storage does not fail. *)
Theorem redemption_minimum_not_enforced userID db o points accountInfo :
  o ∈ (getRedemptionOptions userID db).2 →
  0 < points < RedemptionOption.min_points o →
  points ≤ (getRedemptionOptions userID db).1 →
  let r := redeemPoints no_faults userID
             {| RedeemRequest.Points := points;
                RedeemRequest.Method := RedemptionOption.method o;
                RedeemRequest.AccountInfo := accountInfo |} db in
  Status r.2 = StatusCreated ∧ Success r.2 = true ∧
  field "remaining_points" r.2
  = Some (JInt ((getRedemptionOptions userID db).1 - points)) ∧
  BalanceOf r.1 userID = (getRedemptionOptions userID db).1 - points.
Proof.
  intros _ Hp Hb. simpl in Hb. simpl.
  assert (∀ d, users d = users (deduct_points userID points db) →
               BalanceOf d userID = BalanceOf db userID - points) as Hnew.
  { intros d Hd. apply BalanceOf_deducted; [lia|done]. }
  unfold redeemPoints. tx_unfold. simpl.
  rewrite (proj2 (Z.leb_gt _ _)) by lia.
  rewrite (proj2 (Z.ltb_ge _ _)) by lia.
  simpl. unfold field. simpl. rewrite !Hnew by done. done.
Qed.

Lemma redemption_minimum_not_enforced_witness :
  Status (redeemPoints no_faults 1
            {| RedeemRequest.Points := 1; RedeemRequest.Method := "bank";
               RedeemRequest.AccountInfo := "" |} (InitDB empty_db)).2
  = StatusCreated.
Proof.
  exact (proj1 (redemption_minimum_not_enforced 1 (InitDB empty_db)
                  {| RedemptionOption.method := "bank";
                     RedemptionOption.name := "Bank Transfer";
                     RedemptionOption.min_points := 1000;
                     RedemptionOption.conversion_rate := 100;
                     RedemptionOption.description := "Transfer to your bank account" |}
                  1 "" ltac:(apply list_elem_of_here) ltac:(simpl; lia)
                  ltac:(by vm_compute))).
Defined.

(** ** Restart *)

(** X15.  Starting the server again on a reachable database changes
    nothing: InitDB finds its two accounts and leaves every balance, however
    it has moved since, as it is. *)
Theorem restart_changes_nothing db : reachable db → InitDB db = db.
Proof. intros [Hs _]%reachable_inv. by apply InitDB_seeded. Qed.

Lemma restart_changes_nothing_witness : InitDB db_active = db_active.
Proof. apply (restart_changes_nothing db_active). apply reachable_db_active. Defined.

(** ** Polling *)

Lemma checkSession_effect now flt req db :
  (checkSession now flt req db).1 = db ∨
  ∃ s, CheckSessionRequest.SessionToken req ≠ "" ∧
       station_sessions db !! CheckSessionRequest.SessionToken req = Some s ∧
       (StationSessions.expires_at s <? now) = true ∧ flt 0%nat = false ∧
       checkSession now flt req db
       = (with_station_sessions
            (alter (StationSessions.set_status "expired")
               (CheckSessionRequest.SessionToken req)) db,
          respond_error StatusUnauthorized "Session has expired").
Proof.
  unfold checkSession.
  destruct (String.eqb (CheckSessionRequest.SessionToken req) "") eqn:Htok; [by left|].
  apply String.eqb_neq in Htok.
  destruct (station_sessions db !! CheckSessionRequest.SessionToken req) as [s|] eqn:Hs;
    [|by left].
  destruct (StationSessions.expires_at s <? now) eqn:Hexp.
  - destruct (flt 0%nat) eqn:Hflt; [by left|]. right. by exists s.
  - repeat case_match; by left.
Qed.

(** X16.  Polling is idempotent: a second checkSession at the same time,
    with the same storage behaviour, gives the reply of the first and leaves
    the database as the first left it. *)
Theorem checkSession_idempotent now flt req db :
  checkSession now flt req (checkSession now flt req db).1
  = ((checkSession now flt req db).1, (checkSession now flt req db).2).
Proof.
  destruct (checkSession_effect now flt req db) as [H|(s & Htok & Hs & Hexp & Hflt & ->)].
  - destruct (checkSession now flt req db) as [db1 r1] eqn:E. simpl in *. by subst db1.
  - simpl. unfold checkSession. simpl.
    rewrite (proj2 (String.eqb_neq _ _) Htok), lookup_alter_eq, Hs. simpl.
    rewrite Hexp, Hflt. f_equal. unfold with_station_sessions. simpl. f_equal.
    rewrite alter_alter_eq. by apply alter_ext.
Qed.

(** ** The bearer token *)

Lemma substring_all s : String.substring 0 (String.length s) s = s.
Proof. induction s as [|a s IH]; simpl; [done|]. by rewrite IH. Qed.

Lemma bearerToken_prefix t : t ≠ "" → bearerToken ("Bearer " +:+ t) = t.
Proof.
  intros Ht. destruct t as [|a t]; [done|]. unfold bearerToken. simpl.
  rewrite (proj2 (Z.ltb_lt 7 _)) by lia. simpl. by rewrite substring_all.
Qed.

Lemma bearerToken_short h : (String.length h ≤ 7)%nat → bearerToken h = h.
Proof.
  intros Hlen. unfold bearerToken.
  by rewrite (proj2 (Z.ltb_ge _ _)) by lia.
Qed.

(** X17.  authMiddleware removes one "Bearer " prefix and no more: for a
    token that is not empty, the header "Bearer <token>" hands exactly the
    token to the parser, so the request goes on with an identity exactly when
    the token parses to claims with a string user_id, and it is treated like
    the header "<token>" whenever that one is passed on unchanged; a header of
    at most seven bytes, such as the bare "Bearer ", is parsed as it stands. *)
Theorem authMiddleware_bearer_prefix parse t :
  t ≠ "" →
  bearerToken ("Bearer " +:+ t) = t ∧
  (∀ uid, authMiddleware parse ("Bearer " +:+ t) = Next uid
          ↔ parse t = MapClaims (Some uid)) ∧
  (bearerToken t = t →
   authMiddleware parse ("Bearer " +:+ t) = authMiddleware parse t) ∧
  ((String.length t ≤ 7)%nat → authMiddleware parse t
     = match parse t with
       | ParseError => Answered (respond_error StatusUnauthorized "Invalid token")
       | ForeignClaims =>
           Answered (respond_error StatusUnauthorized "Invalid token claims")
       | MapClaims None => Panicked
       | MapClaims (Some userID) => Next userID
       end).
Proof.
  intros Ht. pose proof (bearerToken_prefix t Ht) as Hpre.
  assert (∀ h, h ≠ "" → authMiddleware parse h
            = match parse (bearerToken h) with
              | ParseError => Answered (respond_error StatusUnauthorized "Invalid token")
              | ForeignClaims =>
                  Answered (respond_error StatusUnauthorized "Invalid token claims")
              | MapClaims None => Panicked
              | MapClaims (Some userID) => Next userID
              end) as Hmw.
  { intros h Hh. unfold authMiddleware. by rewrite (proj2 (String.eqb_neq _ _) Hh). }
  assert ("Bearer " +:+ t ≠ "") as Hne by done.
  repeat split.
  - done.
  - rewrite (Hmw _ Hne), Hpre. destruct (parse t) as [| |[u|]]; congruence.
  - intros Hp. by rewrite (Hmw _ Hne), Hpre, Hp.
  - intros Heq. by rewrite (Hmw _ Hne), (Hmw _ Ht), Hpre, Heq.
  - intros Hlen. by rewrite (Hmw _ Ht), bearerToken_short.
Qed.

Lemma authMiddleware_bearer_prefix_witness :
  bearerToken ("Bearer " +:+ "jwt-1") = "jwt-1".
Proof.
  exact (proj1 (authMiddleware_bearer_prefix (λ _, ParseError) "jwt-1" ltac:(done))).
Defined.

(** ** Materials *)

(** X18.  The materials that getStationConfig advertises as supported are
    exactly those of the rate table, and exactly those that earn: for a whole
    number of kilograms (below [2^49]) CalculatePoints gives the kilograms
    times the rate, without any rounding, for a supported material, and
    nothing for any other. *)
Theorem supported_materials_earn material kg :
  0 < kg < 2 ^ 49 →
  (material ∈ supported_materials ↔ is_Some (materialRates !! material)) ∧
  (material ∈ supported_materials
   ↔ 0 < CalculatePoints material (Float64.of_int kg)) ∧
  (∀ rate, materialRates !! material = Some rate →
     CalculatePoints material (Float64.of_int kg) = kg * rate).
Proof.
  intros Hkg.
  assert (material ∈ supported_materials ↔ is_Some (materialRates !! material)) as Hsup.
  { unfold supported_materials. split.
    - rewrite !elem_of_cons, elem_of_nil.
      intros [->|[->|[->|[->|[]]]]]; vm_compute; by eexists.
    - intros [rate Hrate]. apply materialRates_lookup in Hrate.
      rewrite !elem_of_cons. tauto. }
  assert (∀ rate, materialRates !! material = Some rate →
            CalculatePoints material (Float64.of_int kg) = kg * rate ∧ 0 < kg * rate)
    as Hpts.
  { intros rate Hrate.
    assert (0 < rate ≤ 15) by (apply materialRates_lookup in Hrate; lia).
    split; [|nia]. apply CalculatePoints_whole_kg; [done|lia|].
    change (2 ^ 53) with (16 * 2 ^ 49). nia. }
  split; [done|]. split.
  - rewrite Hsup. split.
    + intros [rate Hrate]. destruct (Hpts rate Hrate) as [-> ?]. done.
    + unfold CalculatePoints. destruct (materialRates !! material); [by eexists | lia].
  - intros rate Hrate. by apply Hpts.
Qed.

Lemma supported_materials_earn_witness :
  CalculatePoints "metal" (Float64.of_int 2) = 2 * 15.
Proof.
  exact (proj2 (proj2 (supported_materials_earn "metal" 2 ltac:(lia))) 15
           ltac:(by vm_compute)).
Defined.

(** ** Totals *)

Lemma ledger_sum_by_kind l owner :
  (∀ e, e ∈ l → Transactions.type e = "deposit" ∨ Transactions.type e = "redemption") →
  ledger_sum l owner
  = foldr Z.add 0 (Transactions.points_earned <$> filter (is_deposit_of owner) l)
    - summary_points owner (entry_summary <$> filter is_redemption l).
Proof.
  induction l as [|e l IH]; intros Hk; [done|].
  assert (ledger_sum (e :: l) owner
          = (if decide (Transactions.user_id e = owner)
             then Transactions.points_earned e else 0) + ledger_sum l owner) as ->.
  { simpl. case_decide; lia. }
  rewrite IH by (intros x Hx; apply Hk; by right). clear IH.
  rewrite !filter_cons.
  destruct (decide (is_deposit_of owner e)) as [[Hu Ht]|Hn];
    destruct (decide (is_redemption e)) as [Hr|Hnr]; unfold is_redemption in *;
    simpl; unfold fmap.
  - congruence.
  - rewrite decide_True by done. lia.
  - unfold entry_summary. simpl. unfold fmap. case_decide; lia.
  - rewrite decide_False; [lia|]. intros Hu. destruct (Hk e) as [Hd|Hr]; [by left|..].
    + by destruct Hn.
    + done.
Qed.

Lemma summary_points_redemptions l owner :
  summary_points owner (redemption_summary <$> l)
  = foldr Z.add 0
      (Redemptions.points_used <$> filter (λ r, Redemptions.user_id r = owner) l).
Proof.
  induction l as [|r l IH]; [done|].
  rewrite filter_cons, fmap_cons.
  change (summary_points owner (redemption_summary r :: (redemption_summary <$> l)))
    with (if decide (Redemptions.user_id r = owner)
          then Redemptions.points_used r + summary_points owner (redemption_summary <$> l)
          else summary_points owner (redemption_summary <$> l)).
  rewrite IH. by repeat case_decide.
Qed.

(** X19.  In every reachable state the balance of an owner whose running
    total has never left the 64-bit integers is the balance the account was
    opened with, plus the points of the owner's deposits in the ledger, minus
    the points of the owner's records in the redemption table. *)
Theorem balance_is_deposits_minus_redemptions db owner :
  reachable db → never_overflowed (transactions db) owner →
  BalanceOf db owner
  = opening_balance owner + deposited_points db owner - redeemed_points db owner.
Proof.
  intros Hreach Hno. rewrite (reachable_balance _ _ Hreach Hno).
  unfold deposited_points, redeemed_points.
  rewrite <- summary_points_redemptions.
  rewrite (red_ledger _ (reachable_redemptions_inv _ Hreach)).
  rewrite ledger_sum_by_kind; [lia|].
  intros e He.
  destruct (entries_kinds _ (reachable_entries_inv _ Hreach) e He) as [_ [Hd|Hr]].
  - left. apply Hd.
  - right. apply Hr.
Qed.

Lemma balance_is_deposits_minus_redemptions_witness :
  BalanceOf (redeemPoints no_faults 1 redeem_100_cash db_active).1 1
  = opening_balance 1
    + deposited_points (redeemPoints no_faults 1 redeem_100_cash db_active).1 1
    - redeemed_points (redeemPoints no_faults 1 redeem_100_cash db_active).1 1.
Proof.
  apply (balance_is_deposits_minus_redemptions
           (handle 0 no_faults (RedeemPoints 1 redeem_100_cash) db_active).1 1).
  - apply reachable_step; [apply reachable_db_active | vm_compute; by eexists].
  - intros [|[|[|n]]]; by vm_compute.
Defined.

(** ** The three ways to earn *)

(** X20.  For a deposit that passes the checks of the session path (a
    material, a positive weight, a session bound to the caller), the three
    earn handlers agree when the storage does not fail: deposit,
    processDeposit and createTransaction succeed or fail together, report the
    same points and the same new balance, and leave the same accounts; the
    ledgers differ in the session token of the new entry only. *)
Theorem earn_paths_agree now userID material weight tok s db :
  material ≠ "" → Float64.leb weight Float64.zero = false → tok ≠ "" →
  station_sessions db !! tok = Some s → StationSessions.user_id s = Some userID →
  let a := deposit no_faults userID (sessioned material weight tok) db in
  let b := processDeposit now no_faults userID (direct material weight) db in
  let c := createTransaction no_faults userID (direct material weight) db in
  Success a.2 = Success b.2 ∧ Success b.2 = Success c.2 ∧
  field "pointsEarned" a.2 = field "points_earned" b.2 ∧
  field "points_earned" b.2 = field "points_earned" c.2 ∧
  field "newBalance" a.2 = field "total_points" b.2 ∧
  field "total_points" b.2 = field "total_points" c.2 ∧
  users a.1 = users b.1 ∧ b.1 = c.1 ∧
  Transactions.points_earned <$> transactions a.1
  = Transactions.points_earned <$> transactions b.1 ∧
  Transactions.user_id <$> transactions a.1
  = Transactions.user_id <$> transactions b.1.
Proof.
  intros Hm Hw Htok Hs Hu. unfold deposit, processDeposit, createTransaction. simpl.
  rewrite (proj2 (String.eqb_neq _ _) Htok), (proj2 (String.eqb_neq _ _) Hm), Hw.
  simpl. rewrite Hs, Hu. rewrite bool_decide_eq_false_2 by (intros H; by apply H).
  destruct (CalculatePoints material weight =? 0) eqn:Hp; [done|].
  tx_unfold. simpl. rewrite !fmap_app. done.
Qed.

Lemma earn_paths_agree_witness :
  users (deposit no_faults 1 (sessioned "metal" (Float64.of_int 2) "token-A") db_connected).1
  = users (processDeposit 1015 no_faults 1 (direct "metal" (Float64.of_int 2))
             db_connected).1.
Proof.
  exact (proj1 (proj2 (proj2 (proj2 (proj2 (proj2 (proj2
    (earn_paths_agree 1015 1 "metal" (Float64.of_int 2) "token-A"
       {| StationSessions.id := 1; StationSessions.station_id := "default";
          StationSessions.user_id := Some 1; StationSessions.status := "connected";
          StationSessions.auth_token := Some "jwt-1";
          StationSessions.expires_at := 1300; StationSessions.ended_at := None |}
       db_connected ltac:(done) ltac:(by vm_compute) ltac:(done)
       ltac:(by vm_compute) ltac:(done))))))))).
Defined.

(** ** Who can bind a session *)

Lemma bound_user_alter (m : gmap string StationSessions.row) tok0 tok f :
  (∀ x, StationSessions.user_id (f x) = StationSessions.user_id x) →
  alter f tok0 m !! tok ≫= StationSessions.user_id = m !! tok ≫= StationSessions.user_id.
Proof.
  intros Hf. rewrite lookup_alter. case_decide; [|done].
  subst. destruct (m !! tok); simpl; [apply Hf|done].
Qed.

(** X21.  A session gets its user from connectSession and from nothing
    else: whenever a call leaves a session bound to a user that it was not
    bound to before, the call is a connectSession for that session whose
    credential verifies to that user, the session existed, had no user, and
    its deadline had not passed; the row then holds that credential and the
    status "connected". *)
Theorem bind_requires_credential now flt rq db tok u :
  bound_user db tok ≠ Some u →
  bound_user (handle now flt rq db).1 tok = Some u →
  ∃ verifyJWT req s,
    rq = ConnectSession verifyJWT req ∧
    ConnectSessionRequest.SessionToken req = tok ∧
    verifyJWT (ConnectSessionRequest.AuthToken req) = Some u ∧
    station_sessions db !! tok = Some s ∧
    StationSessions.user_id s = None ∧
    now ≤ StationSessions.expires_at s ∧
    station_sessions (handle now flt rq db).1 !! tok
    = Some (StationSessions.set_connected u (ConnectSessionRequest.AuthToken req)
              "connected" s).
Proof.
  intros Hbefore Hafter.
  assert (∀ db', bound_user db' tok = bound_user db tok → bound_user db' tok ≠ Some u)
    as Hsame by (intros db' ->; done).
  destruct rq; simpl in Hafter.
  - exfalso. revert Hafter. apply Hsame.
    unfold register. repeat case_match; done.
  - exfalso. revert Hafter. apply Hsame.
    unfold requestSession. repeat case_match; try done.
    all: unfold bound_user; simpl; rewrite lookup_insert; case_decide; [subst|done].
    all: match goal with H : _ || bool_decide _ = false |- _ =>
           apply orb_false_elim in H as [_ H]; apply bool_decide_eq_false in H end.
    all: destruct (station_sessions db !! tok) eqn:E; [|done].
    all: match goal with H : ¬ is_Some _ |- _ => destruct H; by eexists end.
  - exfalso. revert Hafter. apply Hsame.
    unfold checkSession. repeat case_match; try done.
    unfold bound_user. simpl. by apply bound_user_alter.
  - simpl. unfold connectSession in *.
    repeat (case_match; simpl in *; simplify_eq); try done.
    unfold bound_user in Hafter, Hbefore. simpl in Hafter.
    rewrite lookup_alter in Hafter. case_decide as E; [|done]. subst tok.
    match goal with H : station_sessions db !! _ = Some _ |- _ => rewrite H in * end.
    simpl in Hafter. simplify_eq.
    eexists _, _, _. repeat split; try done.
    + match goal with H : (_ <? _) = false |- _ => by apply Z.ltb_ge in H end.
    + rewrite lookup_alter_eq.
      match goal with H : station_sessions db !! _ = Some _ |- _ => by rewrite H end.
  - exfalso. revert Hafter. apply Hsame.
    unfold endSession. repeat case_match; try done.
    unfold bound_user. simpl. by apply bound_user_alter.
  - exfalso. revert Hafter. apply Hsame.
    unfold deposit. tx_unfold.
    repeat (case_match; simpl in *; simplify_eq); try done.
    unfold bound_user. simpl. by apply bound_user_alter.
  - exfalso. revert Hafter. apply Hsame.
    unfold createTransaction. tx_unfold.
    repeat (case_match; simpl in *; simplify_eq); done.
  - exfalso. revert Hafter. apply Hsame.
    unfold processDeposit. tx_unfold.
    repeat (case_match; simpl in *; simplify_eq); done.
  - exfalso. revert Hafter. apply Hsame.
    unfold redeemPoints. tx_unfold.
    repeat (case_match; simpl in *; simplify_eq); done.
Qed.

Lemma bind_requires_credential_witness :
  ∃ verifyJWT req s,
    ConnectSession sample_verifyJWT bind_A_user1 = ConnectSession verifyJWT req ∧
    ConnectSessionRequest.SessionToken req = "token-A" ∧
    verifyJWT (ConnectSessionRequest.AuthToken req) = Some 1 ∧
    station_sessions db_pending !! "token-A" = Some s ∧
    StationSessions.user_id s = None ∧
    1010 ≤ StationSessions.expires_at s ∧
    station_sessions
      (handle 1010 no_faults (ConnectSession sample_verifyJWT bind_A_user1) db_pending).1
      !! "token-A"
    = Some (StationSessions.set_connected 1 (ConnectSessionRequest.AuthToken req)
              "connected" s).
Proof.
  apply (bind_requires_credential 1010 no_faults
           (ConnectSession sample_verifyJWT bind_A_user1) db_pending "token-A" 1);
    by vm_compute.
Defined.

(** ** Entries and replies *)

Ltac no_entry :=
  let H := fresh in
  intros [? H]; apply (f_equal length) in H; rewrite length_app in H; simpl in H; lia.

Ltac entry_or_not :=
  split;
  [ first [ by (intros _; split; [by eexists | done]) | no_entry ]
  | intros [[? ?] ?]; first [ done | by eexists ] ].

(** X22.  A ledger entry is written by a successful earn or redemption and
    by nothing else: a call appends an entry to the ledger exactly when it is
    one of deposit, createTransaction, processDeposit and redeemPoints and its
    reply reports success. *)
Theorem ledger_entry_iff_success now flt rq db :
  (∃ e, transactions (handle now flt rq db).1 = transactions db ++ [e])
  ↔ is_Some (caller rq) ∧ Success (handle now flt rq db).2 = true.
Proof.
  destruct rq; simpl.
  - unfold register. repeat case_match; simpl; entry_or_not.
  - unfold requestSession. repeat case_match; simpl; entry_or_not.
  - unfold checkSession. repeat case_match; simpl; entry_or_not.
  - unfold connectSession. repeat case_match; simpl; entry_or_not.
  - unfold endSession. repeat case_match; simpl; entry_or_not.
  - unfold deposit. tx_unfold.
    repeat (case_match; simpl in *; simplify_eq); entry_or_not.
  - unfold createTransaction. tx_unfold.
    repeat (case_match; simpl in *; simplify_eq); entry_or_not.
  - unfold processDeposit. tx_unfold.
    repeat (case_match; simpl in *; simplify_eq); entry_or_not.
  - unfold redeemPoints. tx_unfold.
    repeat (case_match; simpl in *; simplify_eq); entry_or_not.
Qed.

(** X23.  A new account has nothing to redeem: after a successful
    registration every redemption request of the new account fails and leaves
    the database as the registration left it. *)
Theorem fresh_account_cannot_redeem flt flt' req req' db :
  Success (register flt req db).2 = true →
  let uid := users_seq db + 1 in
  field "id" (register flt req db).2 = Some (JInt uid) ∧
  BalanceOf (register flt req db).1 uid = 0 ∧
  Success (redeemPoints flt' uid req' (register flt req db).1).2 = false ∧
  (redeemPoints flt' uid req' (register flt req db).1).1 = (register flt req db).1.
Proof.
  unfold register.
  destruct (String.eqb (RegisterRequest.Email req) "" || _ || _); [done|].
  destruct (flt 0%nat); [done|].
  destruct (flt 1%nat || bool_decide (email_taken (RegisterRequest.Email req) db));
    [done|].
  intros _. simpl.
  assert (∀ db', users db' = <[users_seq db + 1 :=
                    {| Users.email := RegisterRequest.Email req;
                       Users.full_name := RegisterRequest.FullName req;
                       Users.total_points := 0 |}]> (users db) →
            BalanceOf db' (users_seq db + 1) = 0) as Hbal.
  { intros db' Hu. unfold BalanceOf. by rewrite Hu, lookup_insert_eq. }
  split; [done|]. split; [by apply Hbal|].
  unfold redeemPoints. rewrite Hbal by done.
  destruct (RedeemRequest.Points req' <=? 0) eqn:Hp; [done|].
  apply Z.leb_gt in Hp. by rewrite (proj2 (Z.ltb_lt _ _)) by lia.
Qed.

Lemma fresh_account_cannot_redeem_witness :
  BalanceOf
    (register no_faults
       {| RegisterRequest.Email := "new@trash2cash.com"; RegisterRequest.Password := "pw";
          RegisterRequest.FullName := "New User" |} db_active).1
    (users_seq db_active + 1) = 0.
Proof.
  exact (proj1 (proj2 (fresh_account_cannot_redeem no_faults no_faults
                         {| RegisterRequest.Email := "new@trash2cash.com";
                            RegisterRequest.Password := "pw";
                            RegisterRequest.FullName := "New User" |}
                         redeem_100_cash db_active ltac:(by vm_compute)))).
Defined.

(** * Login and QR login *)

Lemma find_set_session_user (q : string) uid l s :
  List.find (λ x, String.eqb (Sessions.qr_token x) q) l = Some s →
  List.find (λ x, String.eqb (Sessions.qr_token x) q)
    ((λ x, if decide (Sessions.id x = Sessions.id s) then Sessions.set_user uid x else x)
       <$> l)
  = Some (Sessions.set_user uid s).
Proof.
  induction l as [|x l IH]; [done|]. simpl.
  destruct (String.eqb (Sessions.qr_token x) q) eqn:E.
  - intros [= ->]. rewrite decide_True by done. simpl. by rewrite E.
  - intros H. case_decide; simpl; rewrite E; by apply IH.
Qed.

Lemma find_qr_none (q : string) (l : list Sessions.row) :
  (∀ x, x ∈ l → Sessions.qr_token x ≠ q) →
  List.find (λ x, String.eqb (Sessions.qr_token x) q) l = None.
Proof.
  induction l as [|x l IH]; intros H; [done|]. simpl.
  rewrite (proj2 (String.eqb_neq _ _)) by (apply H; by left).
  apply IH. intros y Hy. apply H. by right.
Qed.

Lemma find_qr_elem (q : string) (l : list Sessions.row) s :
  List.find (λ x, String.eqb (Sessions.qr_token x) q) l = Some s →
  s ∈ l ∧ Sessions.qr_token s = q.
Proof.
  induction l as [|x l IH]; [done|]. simpl.
  destruct (String.eqb (Sessions.qr_token x) q) eqn:E.
  - intros [= ->]. split; [by left|]. by apply String.eqb_eq.
  - intros [H1 H2]%IH. split; [by right|done].
Qed.

Lemma verifyToken_effect sec now flt req db ldb :
  (verifyToken sec now flt req db ldb).1 = ldb ∨
  ∃ s uid,
    List.find (λ x, String.eqb (Sessions.qr_token x) (VerifyTokenRequest.QRToken req))
      (sessions ldb) = Some s ∧
    (verifyToken sec now flt req db ldb).1 = set_session_user uid (Sessions.id s) ldb.
Proof.
  unfold verifyToken. repeat case_match; simpl; try (by left); right; by eexists _, _.
Qed.

Lemma verifyToken_binds sec now req db ldb s uid u :
  List.find (λ x, String.eqb (Sessions.qr_token x) (VerifyTokenRequest.QRToken req))
    (sessions ldb) = Some s →
  now ≤ Sessions.expires_at s →
  user_by_email (VerifyTokenRequest.Email req) db = Some (uid, u) →
  checkPasswordHash sec (VerifyTokenRequest.Password req) (hashedPassword sec uid) = true →
  verifyToken sec now no_faults req db ldb
  = (set_session_user uid (Sessions.id s) ldb,
     match generateJWT sec now uid with
     | None => respond_error StatusInternalServerError "Failed to generate token"
     | Some jwtToken =>
         respond_ok StatusOK "Authentication successful"
           (("token", JString jwtToken)
            :: ("session_token", JString (Sessions.token s)) :: user_data uid u)
     end).
Proof.
  intros Hs Hnow Huser Hpw. unfold verifyToken.
  rewrite Hs, (proj2 (Z.ltb_ge _ _) Hnow), Huser, Hpw. simpl.
  by destruct (generateJWT sec now uid).
Qed.

(** X24.  The QR login has no first-bind-wins rule: whatever an earlier
    verifyToken on the same QR token has done, a verifyToken before the
    deadline with an email and password that check binds the session to that
    user, and, when the JWT can be signed, answers 200 with the token of the
    session. *)
Theorem verifyToken_last_bind_wins sec now1 now2 flt1 req1 req2 db1 db2 ldb s uid u :
  List.find (λ x, String.eqb (Sessions.qr_token x) (VerifyTokenRequest.QRToken req2))
    (sessions ldb) = Some s →
  VerifyTokenRequest.QRToken req1 = VerifyTokenRequest.QRToken req2 →
  now2 ≤ Sessions.expires_at s →
  user_by_email (VerifyTokenRequest.Email req2) db2 = Some (uid, u) →
  checkPasswordHash sec (VerifyTokenRequest.Password req2) (hashedPassword sec uid) = true →
  let first := verifyToken sec now1 flt1 req1 db1 ldb in
  let second := verifyToken sec now2 no_faults req2 db2 first.1 in
  List.find (λ x, String.eqb (Sessions.qr_token x) (VerifyTokenRequest.QRToken req2))
    (sessions second.1) = Some (Sessions.set_user uid s) ∧
  (∀ jwtToken, generateJWT sec now2 uid = Some jwtToken →
     Status second.2 = StatusOK ∧
     field "token" second.2 = Some (JString jwtToken) ∧
     field "session_token" second.2 = Some (JString (Sessions.token s))).
Proof.
  intros Hs Hq Hnow Huser Hpw. simpl.
  assert (∃ s1, List.find (λ x, String.eqb (Sessions.qr_token x)
                                  (VerifyTokenRequest.QRToken req2))
                  (sessions (verifyToken sec now1 flt1 req1 db1 ldb).1) = Some s1 ∧
                Sessions.expires_at s1 = Sessions.expires_at s ∧
                Sessions.token s1 = Sessions.token s ∧
                Sessions.set_user uid s1 = Sessions.set_user uid s) as (s1 & Hs1 & He & Ht & Hset).
  { destruct (verifyToken_effect sec now1 flt1 req1 db1 ldb) as [->|(s0 & uid0 & Hs0 & ->)].
    - by exists s.
    - rewrite Hq, Hs in Hs0. injection Hs0 as <-.
      exists (Sessions.set_user uid0 s). split; [|done].
      by apply find_set_session_user. }
  rewrite (verifyToken_binds sec now2 req2 db2 _ s1 uid u Hs1 ltac:(lia) Huser Hpw).
  simpl. split.
  - rewrite <- Hset. by apply find_set_session_user.
  - intros jwtToken ->. simpl. by rewrite Ht.
Qed.

Lemma verifyToken_last_bind_wins_witness :
  List.find (λ x, String.eqb (Sessions.qr_token x) "qr-Q")
    (sessions
       (verifyToken sample_secrets 1020 no_faults verify_Q_demo (InitDB empty_db)
          (verifyToken sample_secrets 1010 no_faults verify_Q_dummy (InitDB empty_db)
             ldb_open).1).1)
  = Some {| Sessions.id := 1; Sessions.user_id := Some 2; Sessions.token := "token-T";
            Sessions.qr_token := "qr-Q"; Sessions.expires_at := 1300 |}.
Proof.
  exact (proj1 (verifyToken_last_bind_wins sample_secrets 1010 1020 no_faults
                  verify_Q_dummy verify_Q_demo (InitDB empty_db) (InitDB empty_db) ldb_open
                  {| Sessions.id := 1; Sessions.user_id := None;
                     Sessions.token := "token-T"; Sessions.qr_token := "qr-Q";
                     Sessions.expires_at := 1300 |} 2 demo_user
                  ltac:(by vm_compute) ltac:(done) ltac:(by vm_compute)
                  ltac:(by vm_compute) ltac:(by vm_compute))).
Defined.

Lemma filter_token_idem (t : string) (l : list Sessions.row) :
  filter (λ s, Sessions.token s ≠ t) (filter (λ s, Sessions.token s ≠ t) l)
  = filter (λ s, Sessions.token s ≠ t) l.
Proof.
  induction l as [|x l IH]; [done|]. rewrite (filter_cons _ x l).
  case_decide as E; [|done]. rewrite filter_cons_True by done. by rewrite IH.
Qed.

(** X25.  logout is idempotent and, when the DELETE does not fail, always
    reports success, whether or not a session carries the token: a second
    logout gives the same reply and the same table, and no session with the
    token is left. *)
Theorem logout_idempotent flt req ldb :
  logout flt req (logout flt req ldb).1 = logout flt req ldb ∧
  Success (logout no_faults req ldb).2 = true ∧
  Forall (λ s, Sessions.token s ≠ LogoutRequest.Token req)
    (sessions (logout no_faults req ldb).1).
Proof.
  unfold logout. repeat split.
  - destruct (flt 0%nat) eqn:E; simpl; [done|]. by rewrite filter_token_idem.
  - simpl. apply Forall_forall. by intros s [Hs _]%list_elem_of_filter.
Qed.

Lemma generateQRLogin_effect now tok qr flt ldb :
  (generateQRLogin now tok qr flt ldb).1 = ldb ∧
  Success (generateQRLogin now tok qr flt ldb).2 = false ∨
  (∀ x, x ∈ sessions ldb → Sessions.token x ≠ tok ∧ Sessions.qr_token x ≠ qr) ∧
  (generateQRLogin now tok qr flt ldb).1
  = {| sessions :=
         sessions ldb
         ++ [{| Sessions.id := sessions_seq ldb + 1; Sessions.user_id := None;
                Sessions.token := tok; Sessions.qr_token := qr;
                Sessions.expires_at := now + 300 |}];
       sessions_seq := sessions_seq ldb + 1 |}.
Proof.
  unfold generateQRLogin.
  destruct (flt 0%nat || existsb _ (sessions ldb)) eqn:E; [by left|].
  apply orb_false_elim in E as [_ E]. right. split; [|by destruct (flt 1%nat)].
  intros x Hx. apply list_elem_of_In in Hx.
  destruct (String.eqb (Sessions.token x) tok || String.eqb (Sessions.qr_token x) qr) eqn:Ex.
  - assert (existsb (λ s, String.eqb (Sessions.token s) tok
                          || String.eqb (Sessions.qr_token s) qr) (sessions ldb) = true)
      by (apply existsb_exists; eauto).
    congruence.
  - apply orb_false_elim in Ex as [E1 E2]. by split; apply String.eqb_neq.
Qed.

Lemma generateQRLogin_opened now tok qr flt ldb :
  Success (generateQRLogin now tok qr flt ldb).2 = true →
  (∀ x, x ∈ sessions ldb → Sessions.token x ≠ tok ∧ Sessions.qr_token x ≠ qr) ∧
  (generateQRLogin now tok qr flt ldb).1
  = {| sessions :=
         sessions ldb
         ++ [{| Sessions.id := sessions_seq ldb + 1; Sessions.user_id := None;
                Sessions.token := tok; Sessions.qr_token := qr;
                Sessions.expires_at := now + 300 |}];
       sessions_seq := sessions_seq ldb + 1 |}.
Proof.
  intros Hok. destruct (generateQRLogin_effect now tok qr flt ldb) as [[_ H]|H]; [|done].
  congruence.
Qed.

Lemma find_qr_app_new (q : string) (l : list Sessions.row) s :
  (∀ x, x ∈ l → Sessions.qr_token x ≠ q) → Sessions.qr_token s = q →
  List.find (λ x, String.eqb (Sessions.qr_token x) q) (l ++ [s]) = Some s.
Proof.
  intros Hl Hs. induction l as [|x l IH]; simpl.
  - by rewrite Hs, String.eqb_refl.
  - rewrite (proj2 (String.eqb_neq _ _)) by (apply Hl; by left).
    apply IH. intros y Hy. apply Hl. by right.
Qed.

(** X26.  The life of a QR login: a session opened by generateQRLogin at
    time [now] can be verified, with an email and password that check, up to
    and including [now + 300], which binds it to the user; after that second
    verifyToken answers 401 "QR token has expired" and changes nothing; and
    once logout has been called with the token of the session, verifyToken
    answers 404 "Invalid QR token" for its QR token. *)
Theorem qr_login_life_cycle sec now now' tok qr flt req db ldb uid u :
  Success (generateQRLogin now tok qr flt ldb).2 = true →
  VerifyTokenRequest.QRToken req = qr →
  user_by_email (VerifyTokenRequest.Email req) db = Some (uid, u) →
  checkPasswordHash sec (VerifyTokenRequest.Password req) (hashedPassword sec uid) = true →
  let opened := (generateQRLogin now tok qr flt ldb).1 in
  let verified := verifyToken sec now' no_faults req db opened in
  let closed := (logout no_faults {| LogoutRequest.Token := tok |} verified.1).1 in
  (now' ≤ now + 300 →
   List.find (λ x, String.eqb (Sessions.qr_token x) qr) (sessions verified.1)
   = Some {| Sessions.id := sessions_seq ldb + 1; Sessions.user_id := Some uid;
             Sessions.token := tok; Sessions.qr_token := qr;
             Sessions.expires_at := now + 300 |}) ∧
  (now + 300 < now' →
   verified = (opened, respond_error StatusUnauthorized "QR token has expired")) ∧
  verifyToken sec now' no_faults req db closed
  = (closed, respond_error StatusNotFound "Invalid QR token").
Proof.
  intros [Hfresh Hopen]%generateQRLogin_opened Hq Huser Hpw. subst qr. simpl.
  rewrite Hopen.
  set (s := {| Sessions.id := sessions_seq ldb + 1; Sessions.user_id := None;
               Sessions.token := tok;
               Sessions.qr_token := VerifyTokenRequest.QRToken req;
               Sessions.expires_at := now + 300 |}).
  set (opened := {| sessions := sessions ldb ++ [s];
                    sessions_seq := sessions_seq ldb + 1 |}).
  assert (List.find (λ x, String.eqb (Sessions.qr_token x) (VerifyTokenRequest.QRToken req))
            (sessions opened) = Some s) as Hfind.
  { apply find_qr_app_new; [|done]. intros x Hx. by apply Hfresh. }
  split; [|split].
  - intros Hnow.
    rewrite (verifyToken_binds sec now' req db opened s uid u Hfind Hnow Huser Hpw). simpl.
    apply (find_set_session_user _ uid _ s Hfind).
  - intros Hnow. unfold verifyToken. rewrite Hfind.
    assert ((Sessions.expires_at s <? now') = true) as -> by (apply Z.ltb_lt; simpl; lia).
    done.
  - unfold verifyToken at 1 3. rewrite find_qr_none; [done|].
    intros x [Htok Hx]%list_elem_of_filter. simpl in Htok.
    destruct (verifyToken_effect sec now' no_faults req db opened)
      as [Heq|(s0 & uid0 & _ & Heq)]; rewrite Heq in Hx; simpl in Hx.
    + apply elem_of_app in Hx as [Hx| ->%list_elem_of_singleton]; [|done].
      by apply Hfresh.
    + apply list_elem_of_fmap in Hx as (y & -> & Hy).
      assert (Sessions.token y ≠ tok ∧ Sessions.qr_token y ≠ VerifyTokenRequest.QRToken req)
        as [? ?]; [|by case_decide].
      apply elem_of_app in Hy as [Hy| ->%list_elem_of_singleton].
      * by apply Hfresh.
      * exfalso. by case_decide.
Qed.

Lemma qr_login_life_cycle_witness :
  verifyToken sample_secrets 1301 no_faults verify_Q_dummy (InitDB empty_db) ldb_open
  = (ldb_open, respond_error StatusUnauthorized "QR token has expired").
Proof.
  exact (proj1 (proj2 (qr_login_life_cycle sample_secrets 1000 1301 "token-T" "qr-Q"
                         no_faults verify_Q_dummy (InitDB empty_db) empty_login_db
                         1 dummy_user ltac:(by vm_compute) ltac:(done)
                         ltac:(by vm_compute) ltac:(by vm_compute)))
           ltac:(lia)).
Defined.

(** X27.  login and verifyToken check an email and a password in the same
    way.  For a QR session that is found and not expired, and an email and a
    password that are not empty, verifyToken (when its UPDATE does not fail)
    refuses the credentials with 401 exactly when login does; when both
    succeed, the two replies carry the same user; and when the two calls are
    served in the same second, they succeed or fail together and carry the
    same JWT (a JWT signed at another time has another expiry). *)
Theorem login_agrees_with_verifyToken sec now now' flt req db ldb s :
  List.find (λ x, String.eqb (Sessions.qr_token x) (VerifyTokenRequest.QRToken req))
    (sessions ldb) = Some s →
  now' ≤ Sessions.expires_at s → flt 0%nat = false →
  VerifyTokenRequest.Email req ≠ "" → VerifyTokenRequest.Password req ≠ "" →
  let l := login sec now {| LoginRequest.Email := VerifyTokenRequest.Email req;
                            LoginRequest.Password := VerifyTokenRequest.Password req |}
             db in
  let v := (verifyToken sec now' flt req db ldb).2 in
  (Status l = StatusUnauthorized ↔ Status v = StatusUnauthorized) ∧
  (Success l = true → Success v = true →
   field "user.id" l = field "user.id" v ∧
   field "user.email" l = field "user.email" v ∧
   field "user.full_name" l = field "user.full_name" v ∧
   field "user.total_points" l = field "user.total_points" v) ∧
  (now = now' → Success l = Success v ∧ field "token" l = field "token" v).
Proof.
  intros Hs Hnow Hflt He Hp. unfold login, verifyToken. simpl.
  rewrite Hs, (proj2 (Z.ltb_ge _ _) Hnow), Hflt.
  rewrite (proj2 (String.eqb_neq _ _) He), (proj2 (String.eqb_neq _ _) Hp). simpl.
  destruct (user_by_email (VerifyTokenRequest.Email req) db) as [[uid u]|];
    [|by repeat split].
  destruct (checkPasswordHash sec _ _); simpl; [|by repeat split].
  split; [|split].
  - destruct (generateJWT sec now uid), (generateJWT sec now' uid); simpl; by split.
  - destruct (generateJWT sec now uid), (generateJWT sec now' uid); simpl; try done.
  - intros <-. by destruct (generateJWT sec now uid).
Qed.

Lemma login_agrees_with_verifyToken_witness :
  Success (login sample_secrets 1010
             {| LoginRequest.Email := "dummy@trash2cash.com";
                LoginRequest.Password := "dummy123" |} (InitDB empty_db))
  = Success (verifyToken sample_secrets 1010 no_faults verify_Q_dummy (InitDB empty_db)
               ldb_open).2.
Proof.
  exact (proj1 (proj2 (proj2
           (login_agrees_with_verifyToken sample_secrets 1010 1010 no_faults
              verify_Q_dummy (InitDB empty_db) ldb_open
              {| Sessions.id := 1; Sessions.user_id := None;
                 Sessions.token := "token-T"; Sessions.qr_token := "qr-Q";
                 Sessions.expires_at := 1300 |}
              ltac:(by vm_compute) ltac:(by vm_compute) ltac:(done)
              ltac:(done) ltac:(done))) eq_refl)).
Defined.

Lemma fmap_set_session_user {B} (f : Sessions.row → B) uid sid (l : list Sessions.row) :
  (∀ x, f (Sessions.set_user uid x) = f x) →
  f <$> ((λ x, if decide (Sessions.id x = sid) then Sessions.set_user uid x else x) <$> l)
  = f <$> l.
Proof.
  intros Hf. induction l as [|x l IH]; [done|]. rewrite !fmap_cons, IH. f_equal.
  by case_decide.
Qed.

Lemma login_reachable_seq sec ldb : login_reachable sec ldb → 0 ≤ sessions_seq ldb.
Proof.
  induction 1 as [|ldb now flt rq _ IH]; [done|].
  destruct rq as [tok qr|req db|req]; simpl.
  - unfold generateQRLogin. repeat case_match; simpl; lia.
  - unfold verifyToken. repeat case_match; simpl; lia.
  - unfold logout. repeat case_match; simpl; lia.
Qed.

(** X28.  In every state of the [sessions] table that the three handlers
    can reach, no two sessions share a token, a QR token or an id, and every
    id lies between 1 and the AUTOINCREMENT counter. *)
Theorem login_sessions_unique sec ldb :
  login_reachable sec ldb →
  NoDup (Sessions.token <$> sessions ldb) ∧
  NoDup (Sessions.qr_token <$> sessions ldb) ∧
  NoDup (Sessions.id <$> sessions ldb) ∧
  Forall (λ s, 1 ≤ Sessions.id s ≤ sessions_seq ldb) (sessions ldb).
Proof.
  induction 1 as [|ldb now flt rq Hreach (Ht & Hq & Hi & Hb)].
  - simpl. repeat split; constructor.
  - destruct rq as [tok qr|req db|req]; simpl.
    + destruct (generateQRLogin_effect now tok qr flt ldb) as [[-> _]|[Hfresh ->]];
        [done|]. simpl.
      rewrite !fmap_app. simpl. repeat split.
      * apply NoDup_app. split; [done|]. split; [|apply NoDup_singleton].
        intros t (x & -> & Hx)%list_elem_of_fmap Heq%list_elem_of_singleton.
        by destruct (Hfresh x Hx).
      * apply NoDup_app. split; [done|]. split; [|apply NoDup_singleton].
        intros t (x & -> & Hx)%list_elem_of_fmap Heq%list_elem_of_singleton.
        by destruct (Hfresh x Hx).
      * apply NoDup_app. split; [done|]. split; [|apply NoDup_singleton].
        intros t (x & -> & Hx)%list_elem_of_fmap Heq%list_elem_of_singleton.
        rewrite Forall_forall in Hb. specialize (Hb x Hx). lia.
      * apply Forall_app. split.
        -- eapply Forall_impl; [done|]. simpl. intros; lia.
        -- apply Forall_singleton. simpl.
           pose proof (login_reachable_seq _ _ Hreach). lia.
    + destruct (verifyToken_effect sec now flt req db ldb) as [->|(s & uid & _ & ->)];
        [done|]. simpl. rewrite !fmap_set_session_user by done.
      repeat split; try done.
      rewrite Forall_fmap. eapply Forall_impl; [done|]. intros x Hx. simpl.
      by case_decide.
    + unfold logout. destruct (flt 0%nat); [done|]. simpl. repeat split.
      * apply (sublist_NoDup _ _ Ht), fmap_sublist, sublist_filter.
      * apply (sublist_NoDup _ _ Hq), fmap_sublist, sublist_filter.
      * apply (sublist_NoDup _ _ Hi), fmap_sublist, sublist_filter.
      * apply Forall_forall. intros x [_ Hx]%list_elem_of_filter.
        rewrite Forall_forall in Hb. by apply Hb.
Qed.

Lemma login_sessions_unique_witness :
  NoDup (Sessions.token <$> sessions ldb_open) ∧
  NoDup (Sessions.qr_token <$> sessions ldb_open) ∧
  NoDup (Sessions.id <$> sessions ldb_open) ∧
  Forall (λ s, 1 ≤ Sessions.id s ≤ sessions_seq ldb_open) (sessions ldb_open).
Proof.
  apply (login_sessions_unique sample_secrets
           (handle_login sample_secrets 1000 no_faults (GenerateQRLogin "token-T" "qr-Q")
              empty_login_db).1).
  apply login_reachable_step, login_reachable_init.
Defined.
